(** * gh_webhook-bot: webhook ingress, permissions, aggregation, rate limiting

    A shallow embedding of the event-ingestion core of the bot and the
    properties its specification states about it.

    Conventions used throughout.
    - Python [str] and [bytes] values are Rocq [string]s (byte sequences; a
      [str] is represented by its UTF-8 encoding, so [s.encode("utf-8")] is
      the identity and a non-ASCII character is a byte above 127).
    - Instants ([time.time()], [datetime.now()]) are integers counting
      microseconds; every function that reads the clock takes the instant as
      its argument [now].
    - A Python exception is the [None] of an [option]; the enclosing
      [try/except] decides what the caller sees.
    - JSON-shaped dictionaries (payloads, repository configuration) are
      values of [Json.value].

    The first part of the file holds the embedding, one module per source
    file; the second part holds the lemmas. *)

From Stdlib Require Import Ascii.
From stdpp Require Import gmap strings list fin_maps.

#[local] Open Scope Z_scope.
#[local] Open Scope string_scope.
#[local] Open Scope list_scope.

(** Microseconds per second, the unit of every instant below. *)
Definition usec : Z := 1000000.

(* ===================================================================== *)
(** ** JSON values: webhook payloads and configuration dictionaries *)
(* ===================================================================== *)

Module Json.

#[local] Set Warnings "-register-all".
#[local] Unset Elimination Schemes.

Inductive value : Type :=
| Null
| Bool (b : bool)
| Num (n : Z)
| Str (s : string)
| Arr (items : list value)
| Obj (fields : list (string * value)).

(** Python truthiness: [not v] is [negb (truthy v)]. *)
Definition truthy (v : value) : bool :=
  match v with
  | Null => false
  | Bool b => b
  | Num n => negb (Z.eqb n 0)
  | Str s => negb (String.eqb s "")
  | Arr items => match items with [] => false | _ => true end
  | Obj fields => match fields with [] => false | _ => true end
  end.

(** [None] (the Python value) is [Null]; an optional value is falsy when
    absent. *)
Definition truthy_opt (o : option value) : bool :=
  match o with Some v => truthy v | None => false end.

Fixpoint assoc (k : string) (fields : list (string * value)) : option value :=
  match fields with
  | [] => None
  | (k', v) :: rest => if String.eqb k k' then Some v else assoc k rest
  end.

(** [d.get(k)]: raises [AttributeError] unless [d] is a dictionary;
    the inner option is the absent key. *)
Definition get (d : value) (k : string) : option (option value) :=
  match d with
  | Obj fields => Some (assoc k fields)
  | _ => None
  end.

(** [d.get(k, default)]. *)
Definition get_default (d : value) (k : string) (dflt : value) : option value :=
  o ← get d k; Some (default dflt o).

Definition is_dict (v : value) : bool :=
  match v with Obj _ => true | _ => false end.

End Json.

(* ===================================================================== *)
(** ** utils.py: signature verification *)
(* ===================================================================== *)

Module Utils.

Inductive hash_algorithm : Type := SHA1 | SHA256.

Definition is_ascii (s : string) : bool :=
  forallb (λ c, Nat.ltb (nat_of_ascii c) 128) (String.list_ascii_of_string s).

(** [hmac.compare_digest(a, b)] on two [str] arguments: a [TypeError]
    unless both are ASCII, their equality otherwise.  That the comparison
    takes the same time whatever the operands is a property of the
    primitive, outside of what a function on values can express. *)
Definition compare_digest (a b : string) : option bool :=
  if is_ascii a && is_ascii b then Some (String.eqb a b) else None.

(** The slice [s[n:]]. *)
Definition slice_from (n : nat) (s : string) : string :=
  String.substring n (String.length s - n) s.

(** The two [startswith] branches: the algorithm named by the prefix and
    the digest that follows it. *)
Definition split_signature_header (h : string) : option (hash_algorithm * string) :=
  if String.prefix "sha1=" h then Some (SHA1, slice_from 5 h)
  else if String.prefix "sha256=" h then Some (SHA256, slice_from 7 h)
  else None.

(** The header prefix that names an algorithm. *)
Definition prefix_of_algorithm (alg : hash_algorithm) : string :=
  match alg with SHA1 => "sha1=" | SHA256 => "sha256=" end.

Section Verify.

(** [hmac.new(key, msg, alg).hexdigest()], a primitive of the standard
    library of the implementation language. *)
Variable hmac_hexdigest : hash_algorithm → string → string → string.

Definition verify_github_signature
    (payload_body signature_header secret : string) : bool :=
  if String.eqb signature_header "" || String.eqb secret "" then true
  else
    match split_signature_header signature_header with
    | None => false
    | Some (alg, signature) =>
        let expected_signature := hmac_hexdigest alg secret payload_body in
        match compare_digest signature expected_signature with
        | Some is_valid => is_valid
        | None => false
        end
    end.

End Verify.

End Utils.

(* ===================================================================== *)
(** ** webhook.py: WebhookProcessor *)
(* ===================================================================== *)

Module Webhook.

Definition supported_events : list string :=
  [ "push"; "pull_request"; "issues"; "issue_comment"; "pull_request_review";
    "pull_request_review_comment"; "release"; "star"; "fork"; "watch";
    "create"; "delete"; "workflow_run"; "workflow_job"; "repository"; "ping" ].

Definition is_supported (event_type : string) : bool :=
  existsb (String.eqb event_type) supported_events.

Record WebhookEvent : Type := {
  event_type : string;
  delivery_id : string;
  signature : string;
  payload : Json.value;
  repository : Json.value;            (* [None] is [Json.Null] *)
  raw_body : option string;
}.

(** A signature verifier as found under [utils["verify_github_signature"]]:
    body, header, secret. *)
Definition verifier : Type := string → string → string → bool.

Record WebhookProcessor : Type := {
  repo_mappings : gmap string Json.value;   (* what [config_manager] serves *)
  utils : option verifier;                  (* [None] until dependencies are set *)
  json_dumps : Json.value → string;         (* compact re-serialisation of a payload *)
  delivery_cache : gmap string Z;           (* delivery_id -> first seen *)
  event_queue : list WebhookEvent;          (* [asyncio.Queue(maxsize=1000)] *)
}.

Definition cache_ttl : Z := 3600 * usec.
Definition queue_maxsize : nat := 1000.

Definition with_cache (p : WebhookProcessor) (c : gmap string Z) : WebhookProcessor :=
  {| repo_mappings := repo_mappings p; utils := utils p; json_dumps := json_dumps p;
     delivery_cache := c; event_queue := event_queue p |}.

Definition with_queue (p : WebhookProcessor) (q : list WebhookEvent) : WebhookProcessor :=
  {| repo_mappings := repo_mappings p; utils := utils p; json_dumps := json_dumps p;
     delivery_cache := delivery_cache p; event_queue := q |}.

Definition with_repository (e : WebhookEvent) (r : Json.value) : WebhookEvent :=
  {| event_type := event_type e; delivery_id := delivery_id e; signature := signature e;
     payload := payload e; repository := r; raw_body := raw_body e |}.

Definition _validate_event (event : WebhookEvent) : bool :=
  if String.eqb (event_type event) "" then false
  else if String.eqb (delivery_id event) "" then false
  else if negb (Json.truthy (payload event)) then false
  else if negb (is_supported (event_type event)) then false
  else true.

(** The [full_name] found under ["repository"], looked for one level down
    when the payload wraps another under ["payload"].  A payload that is
    not a dictionary makes [payload.get] raise. *)
Definition _extract_repository_name (payload : Json.value) : option Json.value :=
  if negb (Json.truthy payload) then Some Json.Null
  else
    inner ← Json.get payload "payload";
    match inner with
    | Some inner_payload =>
        if Json.truthy inner_payload && Json.is_dict inner_payload then
          repository ← Json.get inner_payload "repository";
          match repository with
          | Some (Json.Obj (f :: fs)) =>
              Some (default Json.Null (Json.assoc "full_name" (f :: fs)))
          | _ => Some Json.Null
          end
        else Some Json.Null
    | None =>
        repository ← Json.get payload "repository";
        match repository with
        | Some (Json.Obj (f :: fs)) =>
            Some (default Json.Null (Json.assoc "full_name" (f :: fs)))
        | _ => Some Json.Null
        end
    end.

(** Lazy expiry, then test-and-record: the id is stored by the very lookup
    that finds it absent. *)
Definition expire (current_time : Z) (cache : gmap string Z) : gmap string Z :=
  filter (λ kv, ¬ (current_time - kv.2 > cache_ttl)) cache.

Definition _is_duplicate_delivery (current_time : Z) (id : string)
    (cache : gmap string Z) : gmap string Z * bool :=
  let cache := expire current_time cache in
  match cache !! id with
  | Some _ => (cache, true)
  | None => (<[id := current_time]> cache, false)
  end.

(** [config_manager.get_repository_config(name)]: a dictionary lookup, so
    an unhashable name raises and a name that is not a string finds
    nothing. *)
Definition get_repository_config (p : WebhookProcessor) (name : Json.value)
    : option (option Json.value) :=
  match name with
  | Json.Str s => Some (repo_mappings p !! s)
  | Json.Arr _ | Json.Obj _ => None
  | _ => Some None
  end.

Definition _is_repository_enabled (p : WebhookProcessor) (repo : Json.value) : option bool :=
  if negb (Json.truthy repo) then Some false
  else
    cfg ← get_repository_config p repo;
    match cfg with
    | None => Some false
    | Some repo_config =>
        if negb (Json.truthy repo_config) then Some false
        else
          repo_enabled ← Json.get_default repo_config "enabled" (Json.Bool true);
          webhook_config ← Json.get_default repo_config "webhook" (Json.Obj []);
          webhook_enabled ← Json.get_default webhook_config "enabled" (Json.Bool true);
          Some (Json.truthy repo_enabled && Json.truthy webhook_enabled)
    end.

Definition _verify_webhook_signature (p : WebhookProcessor) (event : WebhookEvent)
    : option bool :=
  if negb (Json.truthy (repository event)) then Some false
  else
    cfg ← get_repository_config p (repository event);
    repo_config ← cfg;                     (* [None.get] raises *)
    webhook_config ← Json.get_default repo_config "webhook" (Json.Obj []);
    outer ← Json.get_default repo_config "verify_signature" (Json.Bool true);
    verify_signature ← Json.get_default webhook_config "verify_signature" outer;
    if negb (Json.truthy verify_signature) then Some true
    else
      match utils p with
      | None => Some true
      | Some verify_github_signature =>
          secret ← Json.get repo_config "webhook_secret";
          if negb (Json.truthy_opt secret) then Some false
          else
            let payload_bytes :=
              match raw_body event with
              | None => json_dumps p (payload event)
              | Some body => body
              end in
            match secret with
            | Some (Json.Str s) =>
                Some (verify_github_signature payload_bytes (signature event) s)
            | _ =>
                (* a truthy secret that is not a string: the verifier's
                   empty-header guard comes first, [secret.encode] raises
                   inside its [try] otherwise *)
                Some (String.eqb (signature event) "")
            end
      end.

(** [await self.event_queue.put(event)]: appends when there is room and
    otherwise suspends the caller until a consumer makes room; it never
    raises [QueueFull] (only [put_nowait] does). *)
Inductive put_result : Type :=
| PutDone (q : list WebhookEvent)
| PutWaiting.

Definition queue_put (event : WebhookEvent) (q : list WebhookEvent) : put_result :=
  if bool_decide (length q < queue_maxsize)%nat then PutDone (q ++ [event]) else PutWaiting.

(** How a call of [process_webhook] ends: one constructor per [return] of
    the source, one for the suspended [put]. *)
Inductive verdict : Type :=
| InvalidEvent            (* return False, basic validation *)
| DuplicateDelivery       (* return True,  "skip duplicate delivery" *)
| NoRepository            (* return False, no repository name *)
| RepoNotConfigured       (* return True,  repository not in the configuration *)
| RepoDisabled            (* return True,  webhook not enabled for the repository *)
| SignatureFailed         (* return False *)
| Enqueued                (* return True *)
| QueueFullDropped        (* return False, the [except asyncio.QueueFull] branch *)
| InternalError           (* return False, the outer [except Exception] *)
| AwaitingQueueSpace.     (* suspended in [put] *)

Definition returned (v : verdict) : option bool :=
  match v with
  | DuplicateDelivery | RepoNotConfigured | RepoDisabled | Enqueued => Some true
  | InvalidEvent | NoRepository | SignatureFailed | QueueFullDropped | InternalError =>
      Some false
  | AwaitingQueueSpace => None
  end.

(** The helper calls of [process_webhook], in the order it makes them. *)
Inductive step : Type :=
| CallValidate | CallExtractRepository | CallDedup | CallRepoConfig
| CallRepoEnabled | CallVerifySignature | CallQueuePut.

Record WebhookData : Type := {
  wd_event_type : string;
  wd_delivery_id : string;
  wd_signature : string;
  wd_payload : Json.value;
  wd_raw_body : option string;
}.

Record run : Type := {
  after : WebhookProcessor;
  result : verdict;
  calls : list step;
}.

(** The [WebhookEvent] built at the top of [process_webhook]. *)
Definition make_event (webhook_data : WebhookData) : WebhookEvent :=
  {| event_type := wd_event_type webhook_data;
     delivery_id := wd_delivery_id webhook_data;
     signature := wd_signature webhook_data;
     payload := wd_payload webhook_data;
     repository := Json.Null;
     raw_body := wd_raw_body webhook_data |}.

Definition process_webhook (now : Z) (webhook_data : WebhookData)
    (p : WebhookProcessor) : run :=
  let event := make_event webhook_data in
  if negb (_validate_event event) then
    {| after := p; result := InvalidEvent; calls := [CallValidate] |}
  else
  match _extract_repository_name (payload event) with
  | None =>
    {| after := p; result := InternalError;
       calls := [CallValidate; CallExtractRepository] |}
  | Some repo =>
  let event := with_repository event repo in
  let '(cache, duplicate) :=
    _is_duplicate_delivery now (delivery_id event) (delivery_cache p) in
  let p := with_cache p cache in
  let calls3 := [CallValidate; CallExtractRepository; CallDedup] in
  if duplicate then
    {| after := p; result := DuplicateDelivery; calls := calls3 |}
  else if negb (Json.truthy repo) then
    {| after := p; result := NoRepository; calls := calls3 |}
  else
  match get_repository_config p repo with
  | None =>
    {| after := p; result := InternalError; calls := calls3 ++ [CallRepoConfig] |}
  | Some repo_config =>
  if negb (Json.truthy_opt repo_config) then
    {| after := p; result := RepoNotConfigured; calls := calls3 ++ [CallRepoConfig] |}
  else
  let calls5 := calls3 ++ [CallRepoConfig; CallRepoEnabled] in
  match _is_repository_enabled p repo with
  | None => {| after := p; result := InternalError; calls := calls5 |}
  | Some false => {| after := p; result := RepoDisabled; calls := calls5 |}
  | Some true =>
  let calls6 := calls5 ++ [CallVerifySignature] in
  match _verify_webhook_signature p event with
  | None => {| after := p; result := InternalError; calls := calls6 |}
  | Some false => {| after := p; result := SignatureFailed; calls := calls6 |}
  | Some true =>
  match queue_put event (event_queue p) with
  | PutDone q =>
    {| after := with_queue p q; result := Enqueued; calls := calls6 ++ [CallQueuePut] |}
  | PutWaiting =>
    {| after := p; result := AwaitingQueueSpace; calls := calls6 ++ [CallQueuePut] |}
  end end end end end.

(** The order in which [process_webhook] makes its calls. *)
Definition source_order : list step :=
  [ CallValidate; CallExtractRepository; CallDedup; CallRepoConfig;
    CallRepoEnabled; CallVerifySignature; CallQueuePut ].


#[export] Instance step_eq_dec : EqDecision step.
Proof. solve_decision. Defined.


End Webhook.

(* ===================================================================== *)
(** ** permission_manager.py: the two-tier permission store *)
(* ===================================================================== *)

Module Permission.

Inductive QQPermissionLevel : Type := NONE | READ | WRITE | SU.
Inductive GitHubPermissionLevel : Type := GH_NONE | GH_WRITE.

#[export] Instance QQPermissionLevel_eq_dec : EqDecision QQPermissionLevel.
Proof. solve_decision. Defined.
#[export] Instance GitHubPermissionLevel_eq_dec : EqDecision GitHubPermissionLevel.
Proof. solve_decision. Defined.

(** [permissions_data] as loaded from [permissions.json] (levels are kept
    as their lower-case names) and the super-user list read at start-up. *)
Record SimplifiedPermissionManager : Type := {
  superusers : list string;
  qq_permissions : gmap string string;
  github_permissions : gmap string string;
  qq_github_mapping : gmap string string;
  github_qq_mapping : gmap string (list string);
}.

(** [QQPermissionLevel(s)], [None] for the [ValueError]. *)
Definition qq_level_of_string (s : string) : option QQPermissionLevel :=
  if String.eqb s "none" then Some NONE
  else if String.eqb s "read" then Some READ
  else if String.eqb s "write" then Some WRITE
  else if String.eqb s "su" then Some SU
  else None.

Definition github_level_of_string (s : string) : option GitHubPermissionLevel :=
  if String.eqb s "none" then Some GH_NONE
  else if String.eqb s "write" then Some GH_WRITE
  else None.

Definition is_superuser (pm : SimplifiedPermissionManager) (qq_id : string) : bool :=
  existsb (String.eqb qq_id) (superusers pm).

Definition get_qq_permission (pm : SimplifiedPermissionManager) (qq_id : string)
    : QQPermissionLevel :=
  if is_superuser pm qq_id then SU
  else
    let permission_str := default "none" (qq_permissions pm !! qq_id) in
    default NONE (qq_level_of_string permission_str).

Definition get_github_by_qq (pm : SimplifiedPermissionManager) (qq_id : string)
    : option string :=
  qq_github_mapping pm !! qq_id.

(** [if github_username:] — bound, and to a non-empty name. *)
Definition bound_name (o : option string) : option string :=
  match o with
  | Some g => if String.eqb g "" then None else Some g
  | None => None
  end.

Definition _get_effective_qq_permission (pm : SimplifiedPermissionManager)
    (qq_id : string) : QQPermissionLevel :=
  let base_permission := get_qq_permission pm qq_id in
  match base_permission with
  | NONE =>
      match bound_name (get_github_by_qq pm qq_id) with
      | Some _ => READ
      | None => base_permission
      end
  | _ => base_permission
  end.

Definition permission_hierarchy (l : QQPermissionLevel) : Z :=
  match l with NONE => 0 | READ => 1 | WRITE => 2 | SU => 3 end.

Definition has_qq_permission (pm : SimplifiedPermissionManager) (qq_id : string)
    (required_permission : QQPermissionLevel) : bool :=
  let user_level := permission_hierarchy (_get_effective_qq_permission pm qq_id) in
  let required_level := permission_hierarchy required_permission in
  bool_decide (user_level >= required_level).

Definition get_github_permission (pm : SimplifiedPermissionManager)
    (github_username : string) : GitHubPermissionLevel :=
  let permission_str := default "none" (github_permissions pm !! github_username) in
  default GH_NONE (github_level_of_string permission_str).

(** The operations [check_mcp_write_permission] regards as writes. *)
Definition write_operations : list string :=
  [ "create_issue"; "update_issue"; "close_issue"; "create_pull_request";
    "update_pull_request"; "merge_pull_request"; "add_comment"; "update_comment";
    "delete_comment"; "create_label" ].

Definition mem (x : string) (l : list string) : bool := existsb (String.eqb x) l.

Definition check_mcp_write_permission (pm : SimplifiedPermissionManager)
    (qq_id operation : string) : bool :=
  if negb (mem operation write_operations) then true
  else
    let qq_permission := _get_effective_qq_permission pm qq_id in
    if bool_decide (qq_permission = WRITE ∨ qq_permission = SU) then true
    else
      match bound_name (get_github_by_qq pm qq_id) with
      | Some github_username =>
          if bool_decide (get_github_permission pm github_username = GH_WRITE)
          then true else false
      | None => false
      end.

End Permission.

(* ===================================================================== *)
(** ** mcp.py: the tool registry and the permission gate of [call_tool] *)
(* ===================================================================== *)

Module Mcp.

Import Permission.

Inductive ToolCategory : Type := GITHUB | CONTEXT | SEARCH | UTILITY.

Record tool_config : Type := {
  category : ToolCategory;
  permissions : list string;      (* the abstract permission tags *)
}.

Definition github_tool (tag : string) : tool_config :=
  {| category := GITHUB; permissions := [tag] |}.
Definition context_tool (tag : string) : tool_config :=
  {| category := CONTEXT; permissions := [tag] |}.

(** [MCPToolCapabilities._setup_default_tools]: every registered tool with
    its category and permission tags (parameter schemas left out). *)
Definition default_tools : list (string * tool_config) :=
  [ ("search_code", github_tool "github_read");
    ("get_file_content", github_tool "github_read");
    ("list_repository_files", github_tool "github_read");
    ("list_pull_requests", github_tool "github_read");
    ("get_pull_request", github_tool "github_read");
    ("create_pull_request", github_tool "github_write");
    ("update_pull_request", github_tool "github_write");
    ("merge_pull_request", github_tool "github_write");
    ("list_issues", github_tool "github_read");
    ("get_issue", github_tool "github_read");
    ("create_issue", github_tool "github_write");
    ("update_issue", github_tool "github_write");
    ("close_issue", github_tool "github_write");
    ("list_comments", github_tool "github_read");
    ("add_comment", github_tool "github_write");
    ("create_issue_comment", github_tool "github_write");
    ("update_comment", github_tool "github_write");
    ("delete_comment", github_tool "github_write");
    ("list_labels", github_tool "github_read");
    ("create_label", github_tool "github_write");
    ("search_conversations", context_tool "ai_chat");
    ("get_context_stats", context_tool "ai_chat");
    ("find_related_contexts", context_tool "ai_chat");
    ("export_context", context_tool "ai_chat") ].

Fixpoint get_tool_config_in (tools : list (string * tool_config)) (name : string)
    : option tool_config :=
  match tools with
  | [] => None
  | (n, c) :: rest => if String.eqb name n then Some c else get_tool_config_in rest name
  end.

Definition get_tool_config (name : string) : option tool_config :=
  get_tool_config_in default_tools name.

(** The write-class tools of the registry: those tagged [github_write]. *)
Definition registered_write_tools : list string :=
  [ "create_pull_request"; "update_pull_request"; "merge_pull_request";
    "create_issue"; "update_issue"; "close_issue"; "add_comment";
    "create_issue_comment"; "update_comment"; "delete_comment"; "create_label" ].

(** The two local sets of [_check_tool_permissions]. *)
Definition read_operations : list string :=
  [ "get_pull_request"; "list_pull_requests"; "get_issue"; "list_issues";
    "get_issue_comments"; "list_comments"; "search_code"; "get_file_content";
    "list_repository_files"; "list_labels"; "get_repository_info";
    "search_conversations"; "get_context_statistics"; "find_related_contexts" ].

Definition write_operations : list string :=
  [ "create_pull_request"; "update_pull_request"; "merge_pull_request";
    "create_issue"; "update_issue"; "close_issue"; "add_comment";
    "update_comment"; "delete_comment"; "create_label"; "add_labels_to_issue";
    "remove_labels_from_issue"; "assign_issue"; "unassign_issue" ].

(** Why a call was refused: the four [raise MCPPermissionError] sites. *)
Inductive MCPPermissionError : Type :=
| NeedsWrite                          (* "需要 write 权限执行 <tool>" *)
| NeedsRead                           (* "需要 read 权限执行 <tool>" *)
| CannotExecute                       (* "无法执行操作: <tool>" *)
| NeedsLevel (l : QQPermissionLevel). (* the permission-tag loop *)

(** [None] when the check lets the call through. *)
Definition permission_mapping (tag : string) : QQPermissionLevel :=
  if String.eqb tag "ai_chat" then READ
  else if String.eqb tag "github_read" then READ
  else if String.eqb tag "github_write" then WRITE
  else if String.eqb tag "user_manage" then SU
  else if String.eqb tag "system_admin" then SU
  else READ.

Fixpoint check_required_permissions (pm : SimplifiedPermissionManager)
    (user : string) (required_permissions : list string) : option MCPPermissionError :=
  match required_permissions with
  | [] => None
  | old_permission :: rest =>
      let required_level := permission_mapping old_permission in
      if negb (has_qq_permission pm user required_level)
      then Some (NeedsLevel required_level)
      else check_required_permissions pm user rest
  end.

Record MCPTools : Type := {
  current_qq_id : string;                                  (* [""] when unset *)
  permission_manager : option SimplifiedPermissionManager;
}.

Definition _check_tool_permissions (self : MCPTools) (tool_name : string)
    (config : tool_config) (user_id : string) : option MCPPermissionError :=
  let effective_user_id :=
    if String.eqb user_id "" then current_qq_id self else user_id in
  match permission_manager self with
  | None => None
  | Some pm =>
  if String.eqb effective_user_id "" then None
  else if has_qq_permission pm effective_user_id SU then None
  else
    let first_gate :=
      if mem tool_name write_operations then
        if negb (check_mcp_write_permission pm effective_user_id tool_name)
        then Some NeedsWrite else None
      else if mem tool_name read_operations then
        if negb (has_qq_permission pm effective_user_id READ
                 || check_mcp_write_permission pm effective_user_id tool_name)
        then Some NeedsRead else None
      else
        if negb (check_mcp_write_permission pm effective_user_id tool_name)
        then Some CannotExecute else None in
    match first_gate with
    | Some e => Some e
    | None => check_required_permissions pm effective_user_id (permissions config)
    end
  end.

(** [call_tool] up to the dispatch: unknown tool, parameter validation
    (its verdict is an input here), permission gate, then the category
    decides whether there is a handler to run. *)
Inductive call_outcome : Type :=
| Executes
| Refused (e : MCPPermissionError)
| ValidationFailed.

Definition call_tool (self : MCPTools) (tool_name : string)
    (parameters_valid : bool) (user_id : string) : call_outcome :=
  match get_tool_config tool_name with
  | None => ValidationFailed
  | Some config =>
      if negb parameters_valid then ValidationFailed
      else
        match _check_tool_permissions self tool_name config user_id with
        | Some e => Refused e
        | None =>
            match category config with
            | GITHUB | CONTEXT => Executes
            | _ => ValidationFailed
            end
        end
  end.

End Mcp.

(* ===================================================================== *)
(** ** msg_aggregator.py: MessageAggregator *)
(* ===================================================================== *)

Module Aggregator.

Record MessageContent : Type := {
  title : string;
  content : string;
}.

Record NotificationTarget : Type := {
  platform : string;
  target_id : string;
}.

(** [PendingMessage]; [metadata] is always [{"targets": targets}]. *)
Record PendingMessage : Type := {
  pm_content : MessageContent;
  timestamp : Z;
  targets : list NotificationTarget;
}.

(** A [threading.Timer]: started when created, then cancelled or run. *)
Inductive timer_state : Type := Waiting | Cancelled | Finished.

#[export] Instance timer_state_eq_dec : EqDecision timer_state.
Proof. solve_decision. Defined.

Record Timer : Type := {
  timer_key : string;       (* the key its callback drains *)
  fires_at : Z;
  state : timer_state;
}.

Definition is_alive (t : Timer) : bool := bool_decide (state t = Waiting).

Definition set_state (t : Timer) (st : timer_state) : Timer :=
  {| timer_key := timer_key t; fires_at := fires_at t; state := st |}.

Record AggregationGroup : Type := {
  key : string;
  messages : list PendingMessage;
  timer : option nat;       (* position of its timer in [timers] *)
  created_at : Z;
  last_updated : Z;
}.

Record MessageAggregator : Type := {
  aggregation_groups : gmap string AggregationGroup;
  mute_until : Z;
  aggregation_delay : Z;    (* seconds; [config.get("aggregation_delay", 5)] *)
  timers : list Timer;      (* every timer object created so far *)
}.

Definition default_delay : Z := 5.
Definition max_messages_per_group : nat := 10.

(** The aggregator as [__init__] leaves it. *)
Definition init (delay : Z) : MessageAggregator :=
  {| aggregation_groups := ∅; mute_until := 0; aggregation_delay := delay; timers := [] |}.

Definition set_mute (now : Z) (duration_minutes : Z) (self : MessageAggregator)
    : MessageAggregator :=
  {| aggregation_groups := aggregation_groups self;
     mute_until := now + duration_minutes * 60 * usec;
     aggregation_delay := aggregation_delay self;
     timers := timers self |}.

Definition is_muted (now : Z) (self : MessageAggregator) : bool :=
  bool_decide (now < mute_until self).

(** [l[-n:]] for a positive [n]. *)
Definition keep_last {A} (n : nat) (l : list A) : list A := drop (length l - n) l.

(** [group.timer.cancel()] guarded by [group.timer and group.timer.is_alive()]. *)
Definition cancel_timer (t : option nat) (ts : list Timer) : list Timer :=
  match t with
  | Some id =>
      match ts !! id with
      | Some tm => if is_alive tm then <[id := set_state tm Cancelled]> ts else ts
      | None => ts
      end
  | None => ts
  end.

Definition add_message (now : Z) (aggregation_key : string)
    (message_content : MessageContent) (targets : list NotificationTarget)
    (self : MessageAggregator) : MessageAggregator * bool :=
  if is_muted now self then (self, false)
  else
    let pending_msg :=
      {| pm_content := message_content; timestamp := now; targets := targets |} in
    let group :=
      match aggregation_groups self !! aggregation_key with
      | Some g => g
      | None => {| key := aggregation_key; messages := []; timer := None;
                   created_at := now; last_updated := now |}
      end in
    let ts := cancel_timer (timer group) (timers self) in
    let msgs := messages group ++ [pending_msg] in
    let msgs :=
      if bool_decide (max_messages_per_group < length msgs)%nat
      then keep_last max_messages_per_group msgs else msgs in
    let new_timer :=
      {| timer_key := aggregation_key;
         fires_at := now + aggregation_delay self * usec;
         state := Waiting |} in
    let group :=
      {| key := key group; messages := msgs; timer := Some (length ts);
         created_at := created_at group; last_updated := now |} in
    ({| aggregation_groups := <[aggregation_key := group]> (aggregation_groups self);
        mute_until := mute_until self;
        aggregation_delay := aggregation_delay self;
        timers := ts ++ [new_timer] |}, true).

(** One call of [_send_aggregated_to_target]: a bundle handed to the sender
    for one target. *)
Record send : Type := {
  to : NotificationTarget;
  bundle : list PendingMessage;
}.

Definition without_group (k : string) (self : MessageAggregator) : MessageAggregator :=
  {| aggregation_groups := delete k (aggregation_groups self);
     mute_until := mute_until self;
     aggregation_delay := aggregation_delay self;
     timers := timers self |}.

Definition _send_aggregated_messages (now : Z) (aggregation_key : string)
    (self : MessageAggregator) : MessageAggregator * list send :=
  if is_muted now self then (self, [])
  else
    match aggregation_groups self !! aggregation_key with
    | None => (self, [])
    | Some group =>
        match messages group with
        | [] => (without_group aggregation_key self, [])
        | first :: _ =>
            let messages_to_send := messages group in
            let targets := targets first in
            (without_group aggregation_key self,
             map (λ target, {| to := target; bundle := messages_to_send |}) targets)
        end
    end.

(** The timer thread: when a waiting timer reaches its deadline its
    callback schedules the drain of its key on the main loop (taken to be
    running) and the timer is over. *)
Definition fire_timer (id : nat) (self : MessageAggregator)
    : MessageAggregator * list send :=
  match timers self !! id with
  | Some tm =>
      if is_alive tm then
        _send_aggregated_messages (fires_at tm) (timer_key tm)
          {| aggregation_groups := aggregation_groups self;
             mute_until := mute_until self;
             aggregation_delay := aggregation_delay self;
             timers := <[id := set_state tm Finished]> (timers self) |}
      else (self, [])
  | None => (self, [])
  end.

Definition due (now : Z) (id : nat) (self : MessageAggregator) : bool :=
  match timers self !! id with
  | Some tm => is_alive tm && bool_decide (fires_at tm <= now)
  | None => false
  end.

Fixpoint fire_due (now : Z) (ids : list nat) (self : MessageAggregator)
    : MessageAggregator * list send :=
  match ids with
  | [] => (self, [])
  | id :: rest =>
      let '(self1, out1) :=
        if due now id self then fire_timer id self else (self, []) in
      let '(self2, out2) := fire_due now rest self1 in
      (self2, out1 ++ out2)
  end.

(** Let the clock reach [now]: every timer due by then fires, oldest first. *)
Definition advance (now : Z) (self : MessageAggregator)
    : MessageAggregator * list send :=
  fire_due now (seq 0 (length (timers self))) self.

(** A timeline of calls made on the aggregator. *)
Inductive action : Type :=
| Add (aggregation_key : string) (message_content : MessageContent)
      (targets : list NotificationTarget)
| SetMute (duration_minutes : Z).

Definition perform (now : Z) (a : action) (self : MessageAggregator) : MessageAggregator :=
  match a with
  | Add k c tg => fst (add_message now k c tg self)
  | SetMute d => set_mute now d self
  end.

Fixpoint run (script : list (Z * action)) (self : MessageAggregator)
    : MessageAggregator * list send :=
  match script with
  | [] => (self, [])
  | (now, a) :: rest =>
      let '(self1, out1) := advance now self in
      let '(self2, out2) := run rest (perform now a self1) in
      (self2, out1 ++ out2)
  end.

(** A burst: messages for one key, each with the instant it is added. *)
Definition arrival : Type := Z * MessageContent * list NotificationTarget.

Definition pending_of (a : arrival) : PendingMessage :=
  {| pm_content := a.1.2; timestamp := a.1.1; targets := a.2 |}.




(** One bundle handed to every target listed on its first message. *)
Definition fan_out (b : list PendingMessage) : list send :=
  match b with
  | [] => []
  | first :: _ => map (λ target, {| to := target; bundle := b |}) (targets first)
  end.


(** No timer is waiting. *)
Definition quiescent (self : MessageAggregator) : Prop :=
  ∀ id tm, timers self !! id = Some tm → state tm ≠ Waiting.

End Aggregator.

(* ===================================================================== *)
(** ** ai_handler.py / ai_models.py: RateLimiter *)
(* ===================================================================== *)

Module RateLimit.

Record RateLimitInfo : Type := {
  user_id : string;
  request_count : Z;
  last_request : Z;
  window_start : Z;
  blocked_until : option Z;
}.

Definition is_blocked (now : Z) (info : RateLimitInfo) : bool :=
  match blocked_until info with
  | None => false
  | Some b => bool_decide (now < b)
  end.

Definition reset_if_needed (now : Z) (window_seconds : Z) (info : RateLimitInfo)
    : RateLimitInfo :=
  if bool_decide (now - window_start info >= window_seconds * usec) then
    {| user_id := user_id info; request_count := 0; last_request := last_request info;
       window_start := now; blocked_until := blocked_until info |}
  else info.

Definition global_limits : list (string * Z) :=
  [ ("requests_per_hour", 100); ("requests_per_minute", 10);
    ("ai_calls_per_hour", 50); ("tool_calls_per_hour", 30) ].

Fixpoint lookup_limit (k : string) (table : list (string * Z)) : option Z :=
  match table with
  | [] => None
  | (k', v) :: rest => if String.eqb k k' then Some v else lookup_limit k rest
  end.

(** The text returned with a refusal. *)
Inductive notice : Type :=
| Throttled (remaining_seconds : Z)             (* "限流中,剩余时间: <n>秒" *)
| Exceeded (operation_type : string) (max_requests : Z).
                                                (* "超过<op>限制 (<max>/小时)" *)

Definition check_rate_limit (now : Z) (uid operation_type : string)
    (user_limits : gmap string RateLimitInfo)
    : gmap string RateLimitInfo * (bool * option notice) :=
  let user_limit :=
    match user_limits !! uid with
    | Some info => info
    | None => {| user_id := uid; request_count := 0; last_request := now;
                 window_start := now; blocked_until := None |}
    end in
  if is_blocked now user_limit then
    let remaining_time := default 0 (blocked_until user_limit) - now in
    (<[uid := user_limit]> user_limits,
     (false, Some (Throttled (Z.quot remaining_time usec))))
  else
    let user_limit := reset_if_needed now 3600 user_limit in
    let limit_key := String.append operation_type "s_per_hour" in
    let max_requests := default 100 (lookup_limit limit_key global_limits) in
    if bool_decide (request_count user_limit >= max_requests) then
      (<[uid := {| user_id := user_id user_limit;
                   request_count := request_count user_limit;
                   last_request := last_request user_limit;
                   window_start := window_start user_limit;
                   blocked_until := Some (now + 3600 * usec) |}]> user_limits,
       (false, Some (Exceeded operation_type max_requests)))
    else
      (<[uid := {| user_id := user_id user_limit;
                   request_count := request_count user_limit + 1;
                   last_request := now;
                   window_start := window_start user_limit;
                   blocked_until := blocked_until user_limit |}]> user_limits,
       (true, None)).

(** [n] consecutive calls by one user at the given instants. *)
Fixpoint calls (script : list (Z * string)) (uid : string)
    (user_limits : gmap string RateLimitInfo)
    : gmap string RateLimitInfo * list bool :=
  match script with
  | [] => (user_limits, [])
  | (now, op) :: rest =>
      let '(l1, (ok, _)) := check_rate_limit now uid op user_limits in
      let '(l2, oks) := calls rest uid l1 in
      (l2, ok :: oks)
  end.

(** The limit [check_rate_limit] selects for an operation class. *)
Definition limit_of (operation_type : string) : Z :=
  default 100 (lookup_limit (String.append operation_type "s_per_hour") global_limits).

(** The record [check_rate_limit] works on: the user's, or a fresh one. *)
Definition current_info (now : Z) (uid : string)
    (user_limits : gmap string RateLimitInfo) : RateLimitInfo :=
  match user_limits !! uid with
  | Some info => info
  | None => {| user_id := uid; request_count := 0; last_request := now;
               window_start := now; blocked_until := None |}
  end.

End RateLimit.

(* ===================================================================== *)
(** ** webhook.py / gh_rest.py: submitting an AI review *)
(* ===================================================================== *)

Module Review.

Record ReviewComment : Type := {
  file_path : string;
  line_number : Z;
  message : string;
}.

Record review_fields : Type := {
  summary : string;
  overall_score : Z;
  approved : bool;
  comments : list ReviewComment;
}.

(** What [review_code_changes] hands back: a dictionary (what [to_dict]
    produces) or a result object; both are handled by the callers. *)
Inductive review_result : Type :=
| AsDict (r : review_fields)
| AsObject (r : review_fields).

Definition fields (r : review_result) : review_fields :=
  match r with AsDict f | AsObject f => f end.

(** An entry of the list [get_pr_reviews] returns. *)
Record prior_review : Type := {
  review_author : string;     (* [review["user"]["login"]] *)
  review_state : string;
  review_id : Z;              (* 0 when absent *)
}.

(** The text of a comment left on the pull request. *)
Inductive comment_text : Type :=
| FilesUnavailable
| ReviewErrored (summary : string)
| SubmitFailed
| NoResult.

(** Calls made on the code-host client, the review engine and the
    notification pipeline. *)
Inductive api_call : Type :=
| get_pr_files
| review_code_changes
| create_pr_review (event : string) (line_comments : nat)
| get_pr_reviews
| hide_review_as_outdated (id : Z)
| find_bot_comment_by_keywords
| update_issue_comment (id : Z) (text : comment_text)
| create_issue_comment (text : comment_text)
| remove_review_request
| notify_ai_review.

(** What the collaborators answer during one review. *)
Record remote : Type := {
  client_available : bool;               (* [_get_api_client] finds a client *)
  pr_files_found : bool;                 (* [get_pr_files] is non-empty *)
  ai_answer : option review_result;      (* [None]: no usable result *)
  reviews : list prior_review;
  bot_comment : option Z;                (* an earlier bot comment (id, 0 if none) *)
  create_review_succeeds : bool;
  bot_username : string;                 (* [allow_review.bot_username] *)
  msg_processor_set : bool;
}.

Definition to_lower_ascii (c : ascii) : ascii :=
  let n := nat_of_ascii c in
  if (Nat.leb 65 n && Nat.leb n 90)%bool then ascii_of_nat (n + 32) else c.

Fixpoint lower (s : string) : string :=
  match s with
  | EmptyString => EmptyString
  | String c rest => String (to_lower_ascii c) (lower rest)
  end.

(** [needle in hay]. *)
Definition contains (needle hay : string) : bool :=
  match String.index 0 needle hay with Some _ => true | None => false end.

Definition summary_reports_error (summary : string) : bool :=
  contains "审查异常" summary || contains "error" (lower summary).

Definition outdated_states : list string := [ "CHANGES_REQUESTED"; "COMMENTED" ].

Definition is_outdated_bot_review (bot : string) (r : prior_review) : bool :=
  String.eqb (review_author r) bot
  && existsb (String.eqb (review_state r)) outdated_states
  && negb (Z.eqb (review_id r) 0).

Definition _check_and_hide_outdated_reviews (w : remote) (bot : string) : list api_call :=
  get_pr_reviews ::
  map (λ r, hide_review_as_outdated (review_id r))
      (filter (λ r, is_outdated_bot_review bot r = true) (reviews w)).

Definition _remove_review_and_comment (w : remote) (bot : string)
    (text : comment_text) : list api_call :=
  if negb (client_available w) then []
  else
    _check_and_hide_outdated_reviews w bot
    ++ [find_bot_comment_by_keywords]
    ++ match bot_comment w with
       | Some id =>
           if negb (Z.eqb id 0) then [update_issue_comment id text]
           else [create_issue_comment text]
       | None => [create_issue_comment text]
       end
    ++ [remove_review_request].

(** [_create_line_comments]: reads the attribute [comments], which a
    dictionary does not have. *)
Definition _create_line_comments (r : review_result) : option (list ReviewComment) :=
  match r with
  | AsDict _ => None
  | AsObject f => Some (take 10 (comments f))
  end.

Definition submit_ai_review (w : remote) (r : review_result) : bool * list api_call :=
  if negb (client_available w) then (false, [])
  else
    let event :=
      if approved (fields r) && bool_decide (overall_score (fields r) >= 90)
      then "APPROVE" else "COMMENT" in
    match _create_line_comments r with
    | None => (false, [])                     (* the [except Exception] *)
    | Some line_comments =>
        (create_review_succeeds w, [create_pr_review event (length line_comments)])
    end.

Definition _perform_ai_review (w : remote) : list api_call :=
  if negb (client_available w) then []
  else
    get_pr_files ::
    if negb (pr_files_found w) then
      _remove_review_and_comment w (bot_username w) FilesUnavailable
    else
      review_code_changes ::
      match ai_answer w with
      | Some review_result =>
          let summary := summary (fields review_result) in
          if summary_reports_error summary then
            _remove_review_and_comment w (bot_username w) (ReviewErrored summary)
            ++ [remove_review_request]
          else
            let '(success, submitted) := submit_ai_review w review_result in
            submitted ++
            if success then
              if msg_processor_set w then [notify_ai_review] else []
            else _remove_review_and_comment w (bot_username w) SubmitFailed
      | None =>
          if negb (String.eqb (bot_username w) "") then
            _remove_review_and_comment w (bot_username w) NoResult
            ++ [remove_review_request]
          else []
      end.

Definition submits (c : api_call) : bool :=
  match c with create_pr_review _ _ => true | _ => false end.

(** The calls made before the first [create_pr_review], if there is one. *)
Fixpoint calls_before_submission (trace : list api_call) : option (list api_call) :=
  match trace with
  | [] => None
  | c :: rest =>
      if submits c then Some [] else cons c <$> calls_before_submission rest
  end.

End Review.

(* ===================================================================== *)
(** ** permission_manager.py: changing levels and bindings *)
(* ===================================================================== *)

Module PermissionStore.

Import Permission.

(** [level.value]. *)
Definition qq_level_value (l : QQPermissionLevel) : string :=
  match l with NONE => "none" | READ => "read" | WRITE => "write" | SU => "su" end.

Definition github_level_value (l : GitHubPermissionLevel) : string :=
  match l with GH_NONE => "none" | GH_WRITE => "write" end.

Definition with_qq_permissions (pm : SimplifiedPermissionManager)
    (t : gmap string string) : SimplifiedPermissionManager :=
  {| superusers := superusers pm; qq_permissions := t;
     github_permissions := github_permissions pm;
     qq_github_mapping := qq_github_mapping pm;
     github_qq_mapping := github_qq_mapping pm |}.

Definition with_github_permissions (pm : SimplifiedPermissionManager)
    (t : gmap string string) : SimplifiedPermissionManager :=
  {| superusers := superusers pm; qq_permissions := qq_permissions pm;
     github_permissions := t;
     qq_github_mapping := qq_github_mapping pm;
     github_qq_mapping := github_qq_mapping pm |}.

Definition with_mappings (pm : SimplifiedPermissionManager)
    (forward : gmap string string) (inverse : gmap string (list string))
    : SimplifiedPermissionManager :=
  {| superusers := superusers pm; qq_permissions := qq_permissions pm;
     github_permissions := github_permissions pm;
     qq_github_mapping := forward;
     github_qq_mapping := inverse |}.

(** The setters write the table and save it; saving never changes the
    answer (its failures are logged and swallowed). *)
Definition set_qq_permission (pm : SimplifiedPermissionManager) (qq_id : string)
    (permission : QQPermissionLevel) : SimplifiedPermissionManager * bool :=
  match permission with
  | SU => (pm, false)
  | _ =>
      (with_qq_permissions pm (<[qq_id := qq_level_value permission]> (qq_permissions pm)),
       true)
  end.

Definition remove_qq_permission (pm : SimplifiedPermissionManager) (qq_id : string)
    : SimplifiedPermissionManager * bool :=
  (with_qq_permissions pm (delete qq_id (qq_permissions pm)), true).

Definition set_github_permission (pm : SimplifiedPermissionManager)
    (github_username : string) (permission : GitHubPermissionLevel)
    : SimplifiedPermissionManager * bool :=
  (with_github_permissions pm
     (<[github_username := github_level_value permission]> (github_permissions pm)),
   true).

Definition get_qq_by_github (pm : SimplifiedPermissionManager)
    (github_username : string) : list string :=
  default [] (github_qq_mapping pm !! github_username).

(** [l.remove(x)] for an [x] known to be in [l]: the first occurrence goes. *)
Fixpoint remove_first (x : string) (l : list string) : list string :=
  match l with
  | [] => []
  | y :: rest => if String.eqb x y then rest else y :: remove_first x rest
  end.

Definition bind_qq_github (pm : SimplifiedPermissionManager)
    (qq_id github_username : string) : SimplifiedPermissionManager * bool :=
  let forward := <[qq_id := github_username]> (qq_github_mapping pm) in
  let qq_list := default [] (github_qq_mapping pm !! github_username) in
  let qq_list := if mem qq_id qq_list then qq_list else qq_list ++ [qq_id] in
  (with_mappings pm forward (<[github_username := qq_list]> (github_qq_mapping pm)),
   true).

Definition unbind_qq_github (pm : SimplifiedPermissionManager) (qq_id : string)
    : SimplifiedPermissionManager * bool :=
  match bound_name (qq_github_mapping pm !! qq_id) with
  | Some github_username =>
      let forward := delete qq_id (qq_github_mapping pm) in
      let inverse :=
        match github_qq_mapping pm !! github_username with
        | Some qq_list =>
            let qq_list :=
              if mem qq_id qq_list then remove_first qq_id qq_list else qq_list in
            match qq_list with
            | [] => delete github_username (github_qq_mapping pm)
            | _ => <[github_username := qq_list]> (github_qq_mapping pm)
            end
        | None => github_qq_mapping pm
        end in
      (with_mappings pm forward inverse, true)
  | None => (pm, true)
  end.

Definition manage_qq_permission (pm : SimplifiedPermissionManager)
    (operator_qq_id target_qq_id : string) (permission : QQPermissionLevel)
    : SimplifiedPermissionManager * bool :=
  if negb (has_qq_permission pm operator_qq_id SU) then (pm, false)
  else set_qq_permission pm target_qq_id permission.

Definition manage_github_permission (pm : SimplifiedPermissionManager)
    (operator_qq_id github_username : string) (permission : GitHubPermissionLevel)
    : SimplifiedPermissionManager * bool :=
  if negb (has_qq_permission pm operator_qq_id SU) then (pm, false)
  else set_github_permission pm github_username permission.

Definition manage_user_binding (pm : SimplifiedPermissionManager)
    (operator_qq_id qq_id github_username action : string)
    : SimplifiedPermissionManager * bool :=
  if negb (has_qq_permission pm operator_qq_id SU) then (pm, false)
  else if String.eqb action "bind" then bind_qq_github pm qq_id github_username
  else if String.eqb action "unbind" then unbind_qq_github pm qq_id
  else (pm, false).

(** Every binding of a chat user is listed under its code-host user. *)
Definition bindings_listed (pm : SimplifiedPermissionManager) : Prop :=
  ∀ q g, qq_github_mapping pm !! q = Some g → q ∈ get_qq_by_github pm g.

(** No chat user has the super-user level written in the table. *)
Definition no_stored_su (pm : SimplifiedPermissionManager) : Prop :=
  ∀ q, qq_permissions pm !! q ≠ Some "su".

End PermissionStore.

(* ===================================================================== *)
(** ** mcp.py: the registered tools by class *)
(* ===================================================================== *)

Module Tools.


End Tools.

(* ===================================================================== *)
(** ** webhook.py: the queue worker's error back-off *)
(* ===================================================================== *)

Module Worker.

(** How one round of [_process_event_queue] ends: an event was handled,
    the wait for an event timed out, or an exception was raised. *)
Inductive round : Type := Handled | TimedOut | Failed.

Definition max_consecutive_errors : Z := 5.

(** The counter after the round and the seconds slept, if any. *)
Definition after_round (r : round) (consecutive_errors : Z) : Z * option Z :=
  match r with
  | Handled => (0, None)
  | TimedOut => (consecutive_errors, None)
  | Failed =>
      let consecutive_errors := consecutive_errors + 1 in
      if bool_decide (consecutive_errors >= max_consecutive_errors)
      then (0, Some 30)
      else (consecutive_errors, Some (Z.min (consecutive_errors * 2) 10))
  end.

(** The loop over a sequence of rounds: the final counter and the sleeps
    taken, in order. *)
Fixpoint _process_event_queue (rounds : list round) (consecutive_errors : Z)
    : Z * list Z :=
  match rounds with
  | [] => (consecutive_errors, [])
  | r :: rest =>
      let '(n, slept) := after_round r consecutive_errors in
      let '(n', sleeps) := _process_event_queue rest n in
      (n', match slept with Some s => s :: sleeps | None => sleeps end)
  end.

End Worker.


(* ===================================================================== *)
(** ** msg_aggregator.py: shutdown, and what every reachable state obeys *)
(* ===================================================================== *)

Module Lifecycle.

Import Aggregator.

(** [cleanup]: every group's live timer is cancelled, then the table is
    cleared.  The groups are visited in the table's order; cancelling one
    timer does not touch another, so the order does not show. *)
Definition cleanup (self : MessageAggregator) : MessageAggregator :=
  {| aggregation_groups := ∅;
     mute_until := mute_until self;
     aggregation_delay := aggregation_delay self;
     timers := map_fold (λ _ group ts, cancel_timer (timer group) ts)
                 (timers self) (aggregation_groups self) |}.

(** Every group holds between one and [max_messages_per_group] messages. *)
Definition groups_bounded (self : MessageAggregator) : Prop :=
  ∀ k g, aggregation_groups self !! k = Some g →
         (1 ≤ length (messages g) ≤ max_messages_per_group)%nat.

(** Every waiting timer is the timer of the group of its key. *)
Definition timers_owned (self : MessageAggregator) : Prop :=
  ∀ id tm, timers self !! id = Some tm → state tm = Waiting →
           ∃ g, aggregation_groups self !! timer_key tm = Some g ∧ timer g = Some id.

Definition bundle_bounded (s : send) : Prop :=
  (1 ≤ length (bundle s) ≤ max_messages_per_group)%nat
  ∧ ∃ first, head (bundle s) = Some first ∧ to s ∈ targets first.

End Lifecycle.


(* ===================================================================== *)
(** ** ai_handler.py: the limiter over many users *)
(* ===================================================================== *)

Module Limiter.

Import RateLimit.

(** Calls by any users, in order: instant, user, operation class. *)
Fixpoint serve (script : list (Z * string * string))
    (user_limits : gmap string RateLimitInfo)
    : gmap string RateLimitInfo * list bool :=
  match script with
  | [] => (user_limits, [])
  | (now, uid, op) :: rest =>
      let '(l1, (ok, _)) := check_rate_limit now uid op user_limits in
      let '(l2, oks) := serve rest l1 in
      (l2, ok :: oks)
  end.

(** Every record is filed under its user and counts between 0 and 100. *)
Definition counted (user_limits : gmap string RateLimitInfo) : Prop :=
  ∀ uid info, user_limits !! uid = Some info →
              user_id info = uid ∧ 0 <= request_count info <= 100.

End Limiter.


(* ===================================================================== *)
(** ** webhook.py: how a review run ends *)
(* ===================================================================== *)

Module ReviewOutcome.

Import Review.


(** The event [submit_ai_review] chooses for a result. *)
Definition event_of (f : review_fields) : string :=
  if approved f && bool_decide (overall_score f >= 90) then "APPROVE" else "COMMENT".

(** A run that ends with the review on the pull request. *)
Definition submitted (w : remote) (trace : list api_call) : Prop :=
  ∃ f n,
    ai_answer w = Some (AsObject f) ∧ create_review_succeeds w = true
    ∧ (n ≤ 10)%nat ∧ (n ≤ length (comments f))%nat
    ∧ trace = [get_pr_files; review_code_changes; create_pr_review (event_of f) n]
              ++ (if msg_processor_set w then [notify_ai_review] else []).



End ReviewOutcome.


(* ===================================================================== *)
(** ** utils.py: the in-memory limiter *)
(* ===================================================================== *)

Module Throttle.

(** An entry of [rate_limits]: [{"count": ..., "window_start": ...}]. *)
Record ip_data : Type := {
  count : Z;
  window_start : Z;
}.

Definition is_rate_limited (current_time : Z) (ip : string) (limit window : Z)
    (rate_limits : gmap string ip_data) : gmap string ip_data * bool :=
  match rate_limits !! ip with
  | None =>
      (<[ip := {| count := 1; window_start := current_time |}]> rate_limits, false)
  | Some ip_data =>
      if bool_decide (current_time - window_start ip_data > window * usec) then
        (<[ip := {| count := 1; window_start := current_time |}]> rate_limits, false)
      else
        (<[ip := {| count := count ip_data + 1;
                    window_start := window_start ip_data |}]> rate_limits,
         bool_decide (count ip_data + 1 > limit))
  end.

(** The table without its expired entries, and how many there were. *)
Definition clean_rate_limits (current_time : Z) (window : Z)
    (rate_limits : gmap string ip_data) : gmap string ip_data * nat :=
  (filter (λ kv, ¬ (current_time - window_start kv.2 > window * usec)) rate_limits,
   size (filter (λ kv : string * ip_data,
                   current_time - window_start kv.2 > window * usec) rate_limits)).

Record RateLimiter : Type := {
  limit : Z;
  window : Z;
  records : gmap string ip_data;
}.

Definition with_records (self : RateLimiter) (r : gmap string ip_data) : RateLimiter :=
  {| limit := limit self; window := window self; records := r |}.

Definition is_allowed (now : Z) (key : string) (self : RateLimiter) : RateLimiter * bool :=
  let '(records, limited) :=
    is_rate_limited now key (limit self) (window self) (records self) in
  (with_records self records, negb limited).

Definition cleanup (now : Z) (self : RateLimiter) : RateLimiter * nat :=
  let '(records, removed) := clean_rate_limits now (window self) (records self) in
  (with_records self records, removed).

(** Requests under one key at the given instants, in order. *)
Fixpoint requests (times : list Z) (key : string) (self : RateLimiter)
    : RateLimiter * list bool :=
  match times with
  | [] => (self, [])
  | now :: rest =>
      let '(self1, ok) := is_allowed now key self in
      let '(self2, oks) := requests rest key self1 in
      (self2, ok :: oks)
  end.

End Throttle.

(* ===================================================================== *)
(** ** utils.py: text helpers *)
(* ===================================================================== *)

Module Text.

(** A Python [str] seen as the list of its code points, so that [len] is
    [length]. *)
Definition str : Type := list N.

(** [l[:stop]]: a negative [stop] counts from the end. *)
Definition py_slice_to {A} (stop : Z) (l : list A) : list A :=
  if bool_decide (stop < 0) then take (Z.to_nat (Z.of_nat (length l) + stop)) l
  else take (Z.to_nat stop) l.

Definition truncate_text (text : str) (max_length : Z) (suffix : str) : str :=
  if match text with [] => true | _ => false end
     || bool_decide (Z.of_nat (length text) <= max_length)
  then text
  else py_slice_to (max_length - Z.of_nat (length suffix)) text ++ suffix.

(** The characters of the class [unsafe_chars], by code point:
    less-than, greater-than, colon, double quote, slash, backslash, bar,
    question mark, asterisk. *)
Definition unsafe_chars : list N := [60; 62; 58; 34; 47; 92; 124; 63; 42]%N.

(** ["_"]. *)
Definition underscore : N := 95%N.

(** The argument [". "] of [strip]: full stop and space. *)
Definition stripped_chars : list N := [46; 32]%N.

(** ["unnamed"]. *)
Definition unnamed : str := [117; 110; 110; 97; 109; 101; 100]%N.

Fixpoint lstrip (chars : list N) (s : str) : str :=
  match s with
  | [] => []
  | c :: rest => if bool_decide (c ∈ chars) then lstrip chars rest else s
  end.

Definition rstrip (chars : list N) (s : str) : str := reverse (lstrip chars (reverse s)).

Definition strip (chars : list N) (s : str) : str := rstrip chars (lstrip chars s).

Definition sanitize_filename (filename : str) : str :=
  let safe_filename :=
    map (λ c, if bool_decide (c ∈ unsafe_chars) then underscore else c) filename in
  let safe_filename := strip stripped_chars safe_filename in
  let safe_filename :=
    match safe_filename with [] => unnamed | _ => safe_filename end in
  if bool_decide (200 < length safe_filename)%nat then take 200 safe_filename
  else safe_filename.

End Text.

(* ===================================================================== *)
(** ** ai_models.py: the conversation context *)
(* ===================================================================== *)

Module Context.

Record Message : Type := {
  role : string;
  content : string;
}.

Record ConversationContext : Type := {
  messages : list Message;
  last_activity : Z;
  max_messages : Z;
}.

(** [l[start:]]: a negative [start] counts from the end. *)
Definition py_slice_from {A} (start : Z) (l : list A) : list A :=
  if bool_decide (start < 0) then drop (Z.to_nat (Z.of_nat (length l) + start)) l
  else drop (Z.to_nat start) l.

Definition add_message (now : Z) (message : Message) (self : ConversationContext)
    : ConversationContext :=
  let messages := messages self ++ [message] in
  if bool_decide (Z.of_nat (length messages) > max_messages self) then
    let system_messages := filter (λ msg, role msg = "system") (take 5 messages) in
    let recent_messages :=
      py_slice_from (- (max_messages self - Z.of_nat (length system_messages)))
        messages in
    {| messages := system_messages ++ recent_messages; last_activity := now;
       max_messages := max_messages self |}
  else
    {| messages := messages; last_activity := now; max_messages := max_messages self |}.

End Context.

(* ===================================================================== *)
(** ** qq_msg.py: the per-group send limit *)
(* ===================================================================== *)

Module QQSender.

Definition _check_rate_limit (current_time : Z) (group_id : string)
    (rate_limiter : gmap string (list Z)) : gmap string (list Z) * bool :=
  let stored := default [] (rate_limiter !! group_id) in
  let kept := filter (λ timestamp, current_time - timestamp < 60 * usec) stored in
  if bool_decide (15 ≤ length kept)%nat then (<[group_id := kept]> rate_limiter, false)
  else (<[group_id := kept ++ [current_time]]> rate_limiter, true).

(** Sends asked for one group at the given instants, in order: the final
    table and the instants at which the send was allowed. *)
Fixpoint sends (times : list Z) (group_id : string)
    (rate_limiter : gmap string (list Z)) : gmap string (list Z) * list Z :=
  match times with
  | [] => (rate_limiter, [])
  | now :: rest =>
      let '(r1, ok) := _check_rate_limit now group_id rate_limiter in
      let '(r2, allowed) := sends rest group_id r1 in
      (r2, if ok then now :: allowed else allowed)
  end.

(** A clock that does not run backwards. *)
Definition nondecreasing (l : list Z) : Prop :=
  ∀ i j x y, (i ≤ j)%nat → l !! i = Some x → l !! j = Some y → (x ≤ y)%Z.

End QQSender.


(* ===================================================================== *)
(** ** Concrete values used by the examples *)
(* ===================================================================== *)

Module Fixtures.

Import Webhook.

(** A stand-in digest for the examples: it only has to be some function
    into hexadecimal text. *)
Definition hexdigest (alg : Utils.hash_algorithm) (key msg : string) : string :=
  match alg with
  | Utils.SHA1 => "a9993e364706816aba3e25717850c26c9cd0d89d"
  | Utils.SHA256 => "ba7816bf8f01cfea414140de5dae2223b00361a396177a9cb410ff61f20015ad"
  end.

Definition repo_config : Json.value :=
  Json.Obj [ ("enabled", Json.Bool true);
             ("webhook_secret", Json.Str "s3cret");
             ("verify_signature", Json.Bool true) ].

Definition push_payload : Json.value :=
  Json.Obj [ ("ref", Json.Str "refs/heads/main");
             ("repository", Json.Obj [ ("full_name", Json.Str "o/r") ]) ].

Definition processor : WebhookProcessor :=
  {| repo_mappings := {[ "o/r" := repo_config ]};
     utils := Some (Utils.verify_github_signature hexdigest);
     json_dumps := λ _, "{}";
     delivery_cache := ∅;
     event_queue := [] |}.

Definition delivery (id sig : string) : WebhookData :=
  {| wd_event_type := "push"; wd_delivery_id := id; wd_signature := sig;
     wd_payload := push_payload; wd_raw_body := Some "{}" |}.

(** A chat user at READ bound to a code-host user at WRITE. *)
Definition bound_reader : Permission.SimplifiedPermissionManager :=
  {| Permission.superusers := [];
     Permission.qq_permissions := {[ "10001" := "read" ]};
     Permission.github_permissions := {[ "alice" := "write" ]};
     Permission.qq_github_mapping := {[ "10001" := "alice" ]};
     Permission.github_qq_mapping := {[ "alice" := ["10001"] ]} |}.

(** Two notifications and two chat groups. *)
Definition m1 : Aggregator.MessageContent :=
  {| Aggregator.title := "push"; Aggregator.content := "1 commit" |}.
Definition m2 : Aggregator.MessageContent :=
  {| Aggregator.title := "issue"; Aggregator.content := "opened" |}.
Definition t1 : Aggregator.NotificationTarget :=
  {| Aggregator.platform := "qq"; Aggregator.target_id := "1" |}.
Definition t2 : Aggregator.NotificationTarget :=
  {| Aggregator.platform := "qq"; Aggregator.target_id := "2" |}.

(** One message is waiting for its timer (due at 5 s) when, at 1 s, a mute
    of ten minutes is set. *)
Definition muted_with_backlog : Aggregator.MessageAggregator :=
  Aggregator.set_mute (1 * usec) 10
    (Aggregator.add_message 0 "qq_1" m1 [t1] (Aggregator.init 5)).1.

Definition backlog_group : Aggregator.AggregationGroup :=
  {| Aggregator.key := "qq_1";
     Aggregator.messages := [Aggregator.pending_of (0, m1, [t1])];
     Aggregator.timer := Some 0%nat;
     Aggregator.created_at := 0;
     Aggregator.last_updated := 0 |}.

(** A group whose second message names a target the first does not. *)
Definition mixed_group : Aggregator.AggregationGroup :=
  {| Aggregator.key := "qq_1";
     Aggregator.messages :=
       [Aggregator.pending_of (0, m1, [t1]); Aggregator.pending_of (1, m2, [t2])];
     Aggregator.timer := None;
     Aggregator.created_at := 0;
     Aggregator.last_updated := 1 |}.

Definition mixed_aggregator : Aggregator.MessageAggregator :=
  {| Aggregator.aggregation_groups := {[ "qq_1" := mixed_group ]};
     Aggregator.mute_until := 0;
     Aggregator.aggregation_delay := 5;
     Aggregator.timers := [] |}.

(** A pull request on which the bot has already asked for changes, and a
    new review that approves it. *)
Definition approving : Review.review_fields :=
  {| Review.summary := "looks good"; Review.overall_score := 92;
     Review.approved := true; Review.comments := [] |}.

Definition reviewed_before (answer : Review.review_result) : Review.remote :=
  {| Review.client_available := true;
     Review.pr_files_found := true;
     Review.ai_answer := Some answer;
     Review.reviews :=
       [ {| Review.review_author := "review-bot";
            Review.review_state := "CHANGES_REQUESTED";
            Review.review_id := 7 |} ];
     Review.bot_comment := None;
     Review.create_review_succeeds := true;
     Review.bot_username := "review-bot";
     Review.msg_processor_set := true |}.

End Fixtures.

(* ===================================================================== *)
(** ** Further concrete values *)
(* ===================================================================== *)

Module Samples.

(** A store with one super-user and one chat user bound without a stored
    level. *)
Definition store : Permission.SimplifiedPermissionManager :=
  {| Permission.superusers := ["1"];
     Permission.qq_permissions := {[ "10003" := "write" ]};
     Permission.github_permissions := ∅;
     Permission.qq_github_mapping := {[ "10002" := "bob" ]};
     Permission.github_qq_mapping := {[ "bob" := ["10002"] ]} |}.

(** A processor that has seen delivery ["d1"] at instant 0. *)
Definition seen_d1 : Webhook.WebhookProcessor :=
  Webhook.with_cache Fixtures.processor {[ "d1" := 0 ]}.


(** A repository whose nested switch turns verification off although the
    top-level one asks for it. *)
Definition switched_off_config : list (string * Json.value) :=
  [ ("webhook_secret", Json.Str "s3cret"); ("verify_signature", Json.Bool true);
    ("webhook", Json.Obj [ ("verify_signature", Json.Bool false) ]) ].

Definition processor_of (cfg : list (string * Json.value)) : Webhook.WebhookProcessor :=
  {| Webhook.repo_mappings := {[ "o/r" := Json.Obj cfg ]};
     Webhook.utils := Some (Utils.verify_github_signature Fixtures.hexdigest);
     Webhook.json_dumps := λ _, "{}";
     Webhook.delivery_cache := ∅;
     Webhook.event_queue := [] |}.

Definition forged_event : Webhook.WebhookEvent :=
  Webhook.with_repository (Webhook.make_event (Fixtures.delivery "d1" "sha256=00"))
    (Json.Str "o/r").

(** A delivery whose payload is a list. *)
Definition list_delivery : Webhook.WebhookData :=
  {| Webhook.wd_event_type := "push"; Webhook.wd_delivery_id := "d2";
     Webhook.wd_signature := ""; Webhook.wd_payload := Json.Arr [ Json.Num 1 ];
     Webhook.wd_raw_body := None |}.

(** Two messages for one key, one second apart, and one for another key. *)
Definition two_keys : list (Z * Aggregator.action) :=
  [ (0, Aggregator.Add "qq_1" Fixtures.m1 [Fixtures.t1]);
    (1 * usec, Aggregator.Add "qq_1" Fixtures.m2 [Fixtures.t1]);
    (2 * usec, Aggregator.Add "qq_2" Fixtures.m1 [Fixtures.t2]) ].

End Samples.

(* ===================================================================== *)
(** * Part II: properties *)
(* ===================================================================== *)

(* ===================================================================== *)
(** ** Signature verification *)
(* ===================================================================== *)

Section SignatureFacts.

Import Utils.

Variable hmac_hexdigest : hash_algorithm → string → string → string.

Lemma substring_all (s : string) : String.substring 0 (String.length s) s = s.
Proof. induction s as [|c s IH]; simpl; [done | by rewrite IH]. Qed.

Lemma slice_from_append (p d : string) :
  slice_from (String.length p) (String.append p d) = d.
Proof.
  unfold slice_from. induction p as [|c p IH]; simpl.
  - rewrite Nat.sub_0_r. apply substring_all.
  - exact IH.
Qed.

Lemma prefix_append (p d : string) : String.prefix p (String.append p d) = true.
Proof.
  induction p as [|c p IH]; simpl.
  - by destruct d.
  - by destruct (ascii_dec c c).
Qed.

Lemma split_sha1 (d : string) :
  split_signature_header (String.append "sha1=" d) = Some (SHA1, d).
Proof.
  unfold split_signature_header.
  rewrite (prefix_append "sha1=" d).
  pose proof (slice_from_append "sha1=" d) as H.
  change (String.length "sha1=") with 5%nat in H. by rewrite H.
Qed.

Lemma split_sha256 (d : string) :
  split_signature_header (String.append "sha256=" d) = Some (SHA256, d).
Proof.
  unfold split_signature_header.
  rewrite (prefix_append "sha256=" d).
  assert (String.prefix "sha1=" (String.append "sha256=" d) = false) as -> by done.
  pose proof (slice_from_append "sha256=" d) as H.
  change (String.length "sha256=") with 7%nat in H. by rewrite H.
Qed.

(** The digest comparison decides the verdict whenever there is something
    to compare: with a non-empty secret and a header made of a known prefix
    and a digest, the verifier answers true exactly when the digest is the
    HMAC of the body under the secret with the algorithm the prefix names. *)
Lemma verify_github_signature_digest (alg : hash_algorithm)
    (body digest secret : string) :
  (∀ a k m, is_ascii (hmac_hexdigest a k m) = true) →
  secret ≠ "" →
  verify_github_signature hmac_hexdigest body
    (String.append (prefix_of_algorithm alg) digest) secret = true
  ↔ digest = hmac_hexdigest alg secret body.
Proof.
  intros Hhex Hsecret. unfold verify_github_signature.
  assert (String.eqb secret "" = false) as -> by by apply String.eqb_neq.
  assert (String.eqb (String.append (prefix_of_algorithm alg) digest) "" = false)
    as -> by by destruct alg.
  simpl orb. cbv iota.
  assert (split_signature_header (String.append (prefix_of_algorithm alg) digest)
          = Some (alg, digest)) as ->
    by (destruct alg; [apply split_sha1 | apply split_sha256]).
  unfold compare_digest. rewrite Hhex, andb_true_r.
  destruct (is_ascii digest) eqn:Hd.
  - apply String.eqb_eq.
  - split; [done |]. intros ->. by rewrite Hhex in Hd.
Qed.

(** A header with neither prefix is refused. *)
Lemma verify_github_signature_unknown_prefix (body header secret : string) :
  header ≠ "" → secret ≠ "" →
  split_signature_header header = None →
  verify_github_signature hmac_hexdigest body header secret = false.
Proof.
  intros Hh Hs Hsplit. unfold verify_github_signature.
  apply String.eqb_neq in Hh, Hs. by rewrite Hh, Hs, Hsplit.
Qed.

(** The empty-header guard answers true before any digest is computed,
    whatever the body and whatever the secret. *)
Lemma verify_github_signature_empty_header (body secret : string) :
  verify_github_signature hmac_hexdigest body "" secret = true.
Proof. reflexivity. Qed.

(** C1 (fail-closed part, as the code has it): for a repository whose
    configuration asks for verification and holds a secret, an event that
    carries no signature passes [_verify_webhook_signature]: the empty
    header reaches the verifier, whose guard accepts it. *)
Theorem unsigned_event_passes_verification (p : Webhook.WebhookProcessor)
    (event : Webhook.WebhookEvent) (name secret : string)
    (cfg : list (string * Json.value)) :
  Webhook.repository event = Json.Str name → name ≠ "" →
  Webhook.repo_mappings p !! name = Some (Json.Obj cfg) →
  Json.assoc "webhook" cfg = None →
  Json.truthy (default (Json.Bool true) (Json.assoc "verify_signature" cfg)) = true →
  Json.assoc "webhook_secret" cfg = Some (Json.Str secret) → secret ≠ "" →
  Webhook.utils p = Some (verify_github_signature hmac_hexdigest) →
  Webhook.signature event = "" →
  Webhook._verify_webhook_signature p event = Some true.
Proof.
  intros Hrepo Hname Hcfg Hwebhook Hverify Hsecret Hnonempty Hutils Hsig.
  apply String.eqb_neq in Hname, Hnonempty.
  unfold Webhook._verify_webhook_signature.
  rewrite Hrepo. simpl Json.truthy. rewrite Hname. simpl negb. cbv iota.
  unfold Webhook.get_repository_config. rewrite Hcfg. simpl.
  rewrite Hwebhook. simpl.
  rewrite Hverify. simpl. rewrite Hutils, Hsecret. simpl.
  rewrite Hnonempty. simpl. rewrite Hsig.
  by rewrite verify_github_signature_empty_header.
Qed.

End SignatureFacts.

Lemma unsigned_event_passes_verification_witness :
  Webhook._verify_webhook_signature Fixtures.processor
    {| Webhook.event_type := "push"; Webhook.delivery_id := "d1";
       Webhook.signature := ""; Webhook.payload := Fixtures.push_payload;
       Webhook.repository := Json.Str "o/r"; Webhook.raw_body := Some "{}" |}
  = Some true.
Proof.
  apply (unsigned_event_passes_verification Fixtures.hexdigest Fixtures.processor _
           "o/r" "s3cret"
           [ ("enabled", Json.Bool true); ("webhook_secret", Json.Str "s3cret");
             ("verify_signature", Json.Bool true) ]).
  - reflexivity.
  - done.
  - vm_compute. reflexivity.
  - reflexivity.
  - reflexivity.
  - reflexivity.
  - done.
  - reflexivity.
  - reflexivity.
Defined.

(** And so an unsigned delivery for a repository with a secret and
    [verify_signature] on ends in the queue. *)
Lemma unsigned_delivery_is_enqueued :
  Webhook.result (Webhook.process_webhook 0 (Fixtures.delivery "d1" "") Fixtures.processor)
  = Webhook.Enqueued.
Proof. vm_compute. reflexivity. Qed.

(** The verifier at work on the stand-in digest: the right digest passes,
    the same digest in upper case, an unknown prefix and a non-ASCII digest
    do not. *)
Example verify_github_signature_examples :
  Utils.verify_github_signature Fixtures.hexdigest "abc"
    "sha1=a9993e364706816aba3e25717850c26c9cd0d89d" "k" = true
  ∧ Utils.verify_github_signature Fixtures.hexdigest "abc"
      "sha1=A9993E364706816ABA3E25717850C26C9CD0D89D" "k" = false
  ∧ Utils.verify_github_signature Fixtures.hexdigest "abc"
      "md5=a9993e364706816aba3e25717850c26c9cd0d89d" "k" = false
  ∧ Utils.verify_github_signature Fixtures.hexdigest "abc" "sha1=é" "k" = false.
Proof. repeat split; vm_compute; reflexivity. Qed.

(** A forged digest, by contrast, is refused. *)
Lemma forged_delivery_is_refused :
  Webhook.result
    (Webhook.process_webhook 0 (Fixtures.delivery "d1" "sha256=00") Fixtures.processor)
  = Webhook.SignatureFailed.
Proof. vm_compute. reflexivity. Qed.

(* ===================================================================== *)
(** ** Tool permissions *)
(* ===================================================================== *)

Section PermissionFacts.

Import Permission Mcp.

Variable pm : SimplifiedPermissionManager.

Lemma mem_elem_of (x : string) (l : list string) : mem x l = true ↔ x ∈ l.
Proof.
  unfold mem. rewrite existsb_exists. split.
  - intros (y & Hy & Heq). apply String.eqb_eq in Heq as ->. by apply list_elem_of_In.
  - intros Hx. exists x. split; [by apply list_elem_of_In | apply String.eqb_refl].
Qed.

(** The effective level never lies below the stored one, and a bound user
    is at least at READ. *)
Lemma effective_level_bound (u g : string) :
  get_github_by_qq pm u = Some g → g ≠ "" →
  permission_hierarchy (_get_effective_qq_permission pm u) >= 1.
Proof.
  intros Hg Hne. unfold _get_effective_qq_permission, bound_name.
  rewrite Hg. apply String.eqb_neq in Hne. rewrite Hne.
  by destruct (get_qq_permission pm u).
Qed.

Lemma effective_level_below_write (u : string) :
  get_qq_permission pm u ≠ WRITE → get_qq_permission pm u ≠ SU →
  has_qq_permission pm u WRITE = false ∧ has_qq_permission pm u SU = false.
Proof.
  intros Hw Hs. unfold has_qq_permission, _get_effective_qq_permission.
  destruct (get_qq_permission pm u); try done;
    destruct (bound_name (get_github_by_qq pm u)); done.
Qed.

Lemma has_write_iff (u : string) :
  has_qq_permission pm u WRITE = true ↔
  _get_effective_qq_permission pm u = WRITE ∨ _get_effective_qq_permission pm u = SU.
Proof.
  unfold has_qq_permission.
  destruct (_get_effective_qq_permission pm u); simpl;
    rewrite ?bool_decide_eq_true; split; intros; try done; try lia;
    (by left) || (by right) || (destruct_or!; done).
Qed.

Lemma has_su_implies_write (u : string) :
  has_qq_permission pm u SU = true → has_qq_permission pm u WRITE = true.
Proof.
  unfold has_qq_permission.
  by destruct (_get_effective_qq_permission pm u).
Qed.

(** [check_mcp_write_permission] by itself does what the permission rule
    says for the operations it lists. *)
Lemma check_mcp_write_permission_rule (u op : string) :
  op ∈ Permission.write_operations →
  check_mcp_write_permission pm u op = true ↔
    (_get_effective_qq_permission pm u = WRITE
     ∨ _get_effective_qq_permission pm u = SU)
    ∨ ∃ g, get_github_by_qq pm u = Some g ∧ g ≠ ""
           ∧ get_github_permission pm g = GH_WRITE.
Proof.
  intros Hop. unfold check_mcp_write_permission.
  apply mem_elem_of in Hop. rewrite Hop. simpl negb. cbv iota.
  case_bool_decide as Hq; [split; [by left | done] |].
  unfold bound_name. destruct (get_github_by_qq pm u) as [g|] eqn:Hg.
  - destruct (String.eqb g "") eqn:Hne.
    + apply String.eqb_eq in Hne as ->. split; [done |].
      intros [? | (g & Hg' & Hne & _)]; [done | naive_solver].
    + apply String.eqb_neq in Hne.
      case_bool_decide as Hw; split; try done.
      * intros _. right. by exists g.
      * intros [? | (g' & Hg' & _ & Hw')]; [done |]. naive_solver.
  - split; [done |]. intros [? | (g & ? & _)]; done.
Qed.

Lemma registered_write_tool_config (tool : string) :
  tool ∈ registered_write_tools →
  get_tool_config tool = Some (github_tool "github_write").
Proof.
  unfold registered_write_tools. intros Htool.
  repeat (apply elem_of_cons in Htool as [-> | Htool]); try reflexivity.
  by apply elem_of_nil in Htool.
Qed.

Lemma write_level_passes_check (u op : string) :
  has_qq_permission pm u WRITE = true → check_mcp_write_permission pm u op = true.
Proof.
  intros Hw. apply has_write_iff in Hw. unfold check_mcp_write_permission.
  destruct (mem op Permission.write_operations); [simpl | done].
  by rewrite bool_decide_eq_true_2.
Qed.

Lemma write_level_has_read (u : string) :
  has_qq_permission pm u WRITE = true → has_qq_permission pm u READ = true.
Proof.
  unfold has_qq_permission. by destruct (_get_effective_qq_permission pm u).
Qed.

(** The gate on a tool tagged [github_write]: open exactly at effective
    chat level WRITE or above, whatever the first gate answered. *)
Lemma github_write_gate (self : MCPTools) (u tool : string) :
  permission_manager self = Some pm → u ≠ "" →
  _check_tool_permissions self tool (github_tool "github_write") u = None
  ↔ has_qq_permission pm u WRITE = true.
Proof.
  intros Hpm Hu. apply String.eqb_neq in Hu.
  unfold _check_tool_permissions. rewrite Hpm, Hu, Hu.
  cbn [check_required_permissions permissions github_tool].
  change (permission_mapping "github_write") with WRITE.
  destruct (has_qq_permission pm u SU) eqn:Hsu.
  { apply has_su_implies_write in Hsu. by rewrite Hsu. }
  destruct (has_qq_permission pm u WRITE) eqn:Hw.
  - rewrite (write_level_passes_check u tool Hw), (write_level_has_read u Hw).
    by destruct (mem tool Mcp.write_operations), (mem tool read_operations).
  - destruct (mem tool Mcp.write_operations), (mem tool read_operations);
      destruct (check_mcp_write_permission pm u tool);
      destruct (has_qq_permission pm u READ); done.
Qed.

(** With a user and a permission manager at hand, a registered write-class
    tool runs exactly when the effective chat level is WRITE or SU. *)
Lemma registered_write_tool_runs_iff (self : MCPTools) (u tool : string) :
  permission_manager self = Some pm → u ≠ "" →
  tool ∈ registered_write_tools →
  call_tool self tool true u = Executes ↔
    (_get_effective_qq_permission pm u = WRITE
     ∨ _get_effective_qq_permission pm u = SU).
Proof.
  intros Hpm Hu Htool. rewrite <- has_write_iff.
  rewrite <- (github_write_gate self u tool Hpm Hu).
  unfold call_tool. rewrite (registered_write_tool_config tool Htool). simpl.
  by destruct (_check_tool_permissions self tool (github_tool "github_write") u).
Qed.

(** C2 (as the code has it): a chat user below WRITE who is bound to a
    code-host user at WRITE is refused every registered write-class tool;
    the refusal comes from the permission-tag loop, which asks for chat
    level WRITE. *)
Theorem bound_github_write_user_refused (self : MCPTools) (u g tool : string) :
  permission_manager self = Some pm → u ≠ "" →
  tool ∈ registered_write_tools →
  get_qq_permission pm u ≠ WRITE → get_qq_permission pm u ≠ SU →
  get_github_by_qq pm u = Some g → g ≠ "" →
  get_github_permission pm g = GH_WRITE →
  call_tool self tool true u = Refused (NeedsLevel WRITE).
Proof.
  intros Hpm Hu Htool Hw Hs Hg Hne Hgw.
  destruct (effective_level_below_write u Hw Hs) as [HW HS].
  assert (check_mcp_write_permission pm u tool = true) as Hcheck.
  { unfold check_mcp_write_permission.
    destruct (mem tool Permission.write_operations); [simpl | done].
    case_bool_decide; [done |].
    unfold bound_name. rewrite Hg. apply String.eqb_neq in Hne. rewrite Hne.
    by rewrite Hgw. }
  apply String.eqb_neq in Hu.
  unfold call_tool. rewrite (registered_write_tool_config tool Htool). simpl.
  unfold _check_tool_permissions. rewrite Hpm, Hu, Hu, HS, Hcheck.
  cbn [check_required_permissions permissions github_tool].
  change (permission_mapping "github_write") with WRITE.
  rewrite HW, orb_true_r.
  by destruct (mem tool Mcp.write_operations), (mem tool read_operations).
Qed.

(** The binding rule where it is applied alone: the bound reader of the
    examples passes [check_mcp_write_permission] for [create_issue]. *)
Example bound_reader_passes_write_check :
  _get_effective_qq_permission Fixtures.bound_reader "10001" = READ
  ∧ check_mcp_write_permission Fixtures.bound_reader "10001" "create_issue" = true
  ∧ has_qq_permission Fixtures.bound_reader "10001" WRITE = false.
Proof. repeat split; vm_compute; reflexivity. Qed.

(** Tools the registry does not know never reach the permission gate. *)
Example unregistered_tools_fail_validation :
  call_tool {| current_qq_id := ""; permission_manager := Some Fixtures.bound_reader |}
    "reopen_issue" true "10001" = ValidationFailed
  ∧ call_tool {| current_qq_id := ""; permission_manager := Some Fixtures.bound_reader |}
      "add_labels_to_issue" true "10001" = ValidationFailed.
Proof. split; vm_compute; reflexivity. Qed.

End PermissionFacts.

Lemma bound_github_write_user_refused_witness :
  Mcp.call_tool
    {| Mcp.current_qq_id := ""; Mcp.permission_manager := Some Fixtures.bound_reader |}
    "create_issue" true "10001"
  = Mcp.Refused (Mcp.NeedsLevel Permission.WRITE).
Proof.
  apply (bound_github_write_user_refused Fixtures.bound_reader _ "10001" "alice"
           "create_issue").
  - reflexivity.
  - done.
  - unfold Mcp.registered_write_tools. set_solver.
  - vm_compute. done.
  - vm_compute. done.
  - vm_compute. reflexivity.
  - done.
  - vm_compute. reflexivity.
Defined.

(* ===================================================================== *)
(** ** Webhook submission: order of the steps and the dedup cache *)
(* ===================================================================== *)

Section WebhookFacts.

Import Webhook.

(** Case analysis along the body of [process_webhook]. *)
Ltac process_cases :=
  repeat match goal with
  | |- context [ _is_duplicate_delivery ?t ?i ?c ] =>
      destruct (_is_duplicate_delivery t i c) as [? []] eqn:?
  | |- context [ if ?b then _ else _ ] => destruct b eqn:?
  | |- context [ match ?x with _ => _ end ] => destruct x eqn:?
  end.

Example extract_repository_name_examples :
  _extract_repository_name Fixtures.push_payload = Some (Json.Str "o/r")
  ∧ _extract_repository_name (Json.Obj [ ("payload", Fixtures.push_payload) ])
    = Some (Json.Str "o/r")
  ∧ _extract_repository_name (Json.Obj [ ("repository", Json.Str "o/r") ])
    = Some Json.Null
  ∧ _extract_repository_name (Json.Arr [ Json.Num 1 ]) = None.
Proof. repeat split; reflexivity. Qed.

Lemma expire_lookup (now : Z) (cache : gmap string Z) (id : string) (ts : Z) :
  expire now cache !! id = Some ts ↔ cache !! id = Some ts ∧ (now - ts ≤ cache_ttl)%Z.
Proof.
  unfold expire. rewrite map_lookup_filter_Some. simpl. split.
  - intros [? ?]. split; [done | lia].
  - intros [? ?]. split; [done | lia].
Qed.

(** A lookup that finds the id absent has recorded it. *)
Lemma dedup_records (now : Z) (id : string) (cache cache' : gmap string Z) :
  _is_duplicate_delivery now id cache = (cache', false) →
  cache' !! id = Some now.
Proof.
  unfold _is_duplicate_delivery.
  destruct (expire now cache !! id); intros [= <-]. apply lookup_insert_eq.
Qed.

(** A recorded id is a duplicate for as long as its entry has not aged
    past the hour. *)
Lemma dedup_retry (now' ts : Z) (id : string) (cache : gmap string Z) :
  cache !! id = Some ts → (now' - ts ≤ cache_ttl)%Z →
  _is_duplicate_delivery now' id cache = (expire now' cache, true).
Proof.
  intros Hid Hage. unfold _is_duplicate_delivery.
  by rewrite (proj2 (expire_lookup now' cache id ts) (conj Hid Hage)).
Qed.

Lemma queue_put_capacity (e : WebhookEvent) (q q' : list WebhookEvent) :
  queue_put e q = PutDone q' → q' = q ++ [e] ∧ (length q' ≤ queue_maxsize)%nat.
Proof.
  unfold queue_put. case_bool_decide as Hlen; [| done].
  intros [= <-]. split; [done |]. rewrite length_app. simpl. lia.
Qed.

(** [put] never takes the [QueueFull] branch: a full queue suspends the
    caller instead. *)
Lemma process_webhook_never_reports_queue_full (now : Z) (d : WebhookData)
    (p : WebhookProcessor) :
  result (process_webhook now d p) ≠ QueueFullDropped.
Proof. unfold process_webhook. process_cases; done. Qed.

Lemma process_webhook_full_queue_suspends (now : Z) (d : WebhookData)
    (p : WebhookProcessor) :
  (queue_maxsize ≤ length (event_queue p))%nat →
  result (process_webhook now d p) ≠ Enqueued
  ∧ event_queue (after (process_webhook now d p)) = event_queue p.
Proof.
  intros Hfull. unfold process_webhook.
  process_cases; simpl; try done.
  match goal with H : queue_put _ _ = PutDone _ |- _ =>
    unfold queue_put in H; simpl in H; rewrite bool_decide_eq_false_2 in H by lia;
    discriminate H end.
Qed.



(** Nor is the list of allowed event types consulted on submission: a
    push for a repository that only allows [issues] is queued. *)
Lemma disallowed_event_type_is_enqueued :
  result
    (process_webhook 0 (Fixtures.delivery "d1" "")
       {| repo_mappings :=
            {[ "o/r" := Json.Obj [ ("enabled", Json.Bool true);
                                   ("verify_signature", Json.Bool false);
                                   ("allowed_message_types",
                                    Json.Arr [Json.Str "issues"]) ] ]};
          utils := None; json_dumps := λ _, "{}";
          delivery_cache := ∅; event_queue := [] |})
  = Enqueued.
Proof. vm_compute. reflexivity. Qed.

(** C9: the delivery id is recorded by the first lookup, which comes
    before the repository gate, the signature check and the queue; hence
    once a submission got as far as the lookup and was not itself a
    duplicate, whatever became of it afterwards, a retry with the same id
    within the hour is answered as a duplicate (success) and adds nothing
    to the queue. *)
Theorem retry_after_rejection_is_duplicate (now now' : Z) (d d' : WebhookData)
    (p : WebhookProcessor) :
  CallDedup ∈ calls (process_webhook now d p) →
  result (process_webhook now d p) ≠ DuplicateDelivery →
  wd_delivery_id d' = wd_delivery_id d →
  _validate_event (make_event d') = true →
  is_Some (_extract_repository_name (wd_payload d')) →
  (now' - now ≤ cache_ttl)%Z →
  delivery_cache (after (process_webhook now d p)) !! wd_delivery_id d = Some now
  ∧ result (process_webhook now' d' (after (process_webhook now d p))) = DuplicateDelivery
  ∧ returned (result (process_webhook now' d' (after (process_webhook now d p))))
    = Some true
  ∧ event_queue (after (process_webhook now' d' (after (process_webhook now d p))))
    = event_queue (after (process_webhook now d p)).
Proof.
  intros Hreached Hfirst Hid Hvalid [repo' Hrepo'] Hage.
  assert (delivery_cache (after (process_webhook now d p)) !! wd_delivery_id d
          = Some now) as Hrecorded.
  { revert Hreached Hfirst. unfold process_webhook.
    destruct (negb (_validate_event (make_event d))).
    { simpl. intros Hin _. by repeat (apply elem_of_cons in Hin as [? | Hin]);
        try apply elem_of_nil in Hin. }
    destruct (_extract_repository_name (payload (make_event d))) as [repo|].
    2:{ simpl. intros Hin _. by repeat (apply elem_of_cons in Hin as [? | Hin]);
        try apply elem_of_nil in Hin. }
    destruct (_is_duplicate_delivery now _ _) as [cache []] eqn:Hdup.
    { simpl. by intros _ []. }
    apply dedup_records in Hdup. intros _ _.
    process_cases; simpl; exact Hdup. }
  split; [done |].
  unfold process_webhook at 1 3 5.
  rewrite Hvalid. simpl negb. cbv iota.
  change (payload (make_event d')) with (wd_payload d'). rewrite Hrepo'.
  change (delivery_id (with_repository (make_event d') repo')) with (wd_delivery_id d').
  rewrite Hid, (dedup_retry now' now _ _ Hrecorded Hage).
  done.
Qed.


Lemma retry_after_rejection_is_duplicate_witness :
  result (process_webhook 0 (Fixtures.delivery "d1" "sha256=00") Fixtures.processor)
  = SignatureFailed
  ∧ result
      (process_webhook (3600 * usec) (Fixtures.delivery "d1" "sha256=00")
         (after (process_webhook 0 (Fixtures.delivery "d1" "sha256=00")
                   Fixtures.processor)))
    = DuplicateDelivery.
Proof.
  split; [vm_compute; reflexivity |].
  refine (proj1 (proj2 (retry_after_rejection_is_duplicate 0 (3600 * usec)
            (Fixtures.delivery "d1" "sha256=00") (Fixtures.delivery "d1" "sha256=00")
            Fixtures.processor _ _ _ _ _ _))).
  - assert (calls (process_webhook 0 (Fixtures.delivery "d1" "sha256=00")
                     Fixtures.processor) = take 6 source_order) as ->
      by (vm_compute; reflexivity).
    simpl. apply list_elem_of_In. simpl. tauto.
  - vm_compute. discriminate.
  - reflexivity.
  - vm_compute. reflexivity.
  - vm_compute. eexists. reflexivity.
  - vm_compute. discriminate.
Defined.

End WebhookFacts.

(* ===================================================================== *)
(** ** Aggregation: mute, drain, fan-out *)
(* ===================================================================== *)

Section AggregatorFacts.

Import Aggregator.

Lemma usec_pos : 0 < usec.
Proof. done. Qed.

Lemma is_muted_true (now : Z) (s : MessageAggregator) :
  now < mute_until s → is_muted now s = true.
Proof. intros. unfold is_muted. by apply bool_decide_eq_true_2. Qed.

Lemma is_muted_false (now : Z) (s : MessageAggregator) :
  (mute_until s ≤ now)%Z → is_muted now s = false.
Proof. intros. unfold is_muted. apply bool_decide_eq_false_2. lia. Qed.

Lemma drain_keeps_mute (now : Z) (k : string) (s : MessageAggregator) :
  mute_until (_send_aggregated_messages now k s).1 = mute_until s.
Proof.
  unfold _send_aggregated_messages.
  destruct (is_muted now s); [done |].
  destruct (aggregation_groups s !! k) as [g|]; [| done].
  by destruct (messages g).
Qed.

Lemma drain_keeps_timers (now : Z) (k : string) (s : MessageAggregator) :
  timers (_send_aggregated_messages now k s).1 = timers s.
Proof.
  unfold _send_aggregated_messages.
  destruct (is_muted now s); [done |].
  destruct (aggregation_groups s !! k) as [g|]; [| done].
  by destruct (messages g).
Qed.

Lemma fire_timer_keeps_mute (id : nat) (s : MessageAggregator) :
  mute_until (fire_timer id s).1 = mute_until s.
Proof.
  unfold fire_timer. destruct (timers s !! id) as [tm|]; [| done].
  destruct (is_alive tm); [| done]. by rewrite drain_keeps_mute.
Qed.

Lemma fire_timer_length (id : nat) (s : MessageAggregator) :
  length (timers (fire_timer id s).1) = length (timers s).
Proof.
  unfold fire_timer. destruct (timers s !! id) as [tm|]; [| done].
  destruct (is_alive tm); [| done].
  rewrite drain_keeps_timers. simpl. apply length_insert.
Qed.

(** A timer whose deadline falls inside the mute window sends nothing. *)
Lemma fire_timer_muted (id : nat) (now : Z) (s : MessageAggregator) :
  now < mute_until s → due now id s = true → (fire_timer id s).2 = [].
Proof.
  intros Hmute. unfold due, fire_timer.
  destruct (timers s !! id) as [tm|]; [| done].
  destruct (is_alive tm); [simpl | done].
  intros Hdue%bool_decide_eq_true.
  unfold _send_aggregated_messages, is_muted. simpl.
  rewrite bool_decide_eq_true_2; [done | lia].
Qed.

Lemma fire_due_muted (now : Z) (ids : list nat) (s : MessageAggregator) :
  now < mute_until s → (fire_due now ids s).2 = [].
Proof.
  revert s. induction ids as [|id ids IH]; intros s Hmute; [done |].
  simpl. destruct (due now id s) eqn:Hdue.
  - pose proof (fire_timer_muted id now s Hmute Hdue) as Hout.
    pose proof (fire_timer_keeps_mute id s) as Hkeep.
    destruct (fire_timer id s) as [s1 out1]. simpl in *. subst out1.
    specialize (IH s1). rewrite Hkeep in IH. specialize (IH Hmute).
    by destruct (fire_due now ids s1) as [s2 out2]; simpl in *; subst.
  - specialize (IH s Hmute).
    by destruct (fire_due now ids s) as [s2 out2]; simpl in *; subst.
Qed.

(** C3: while [now < mute_until] nothing goes out: a message added is
    dropped on the spot, a drain sends nothing, and letting the clock run
    up to [now] makes no timer send anything. *)
Theorem muted_sends_nothing (now : Z) (k : string) (c : MessageContent)
    (tg : list NotificationTarget) (s : MessageAggregator) :
  now < mute_until s →
  add_message now k c tg s = (s, false)
  ∧ (_send_aggregated_messages now k s).2 = []
  ∧ (advance now s).2 = [].
Proof.
  intros Hmute. repeat split.
  - unfold add_message. by rewrite is_muted_true.
  - unfold _send_aggregated_messages. by rewrite is_muted_true.
  - by apply fire_due_muted.
Qed.

(** C5 (as the code has it): a drain that finds the mute active returns
    before it touches the table, so the group stays where it was, with its
    messages. *)
Theorem muted_drain_keeps_group (now : Z) (k : string) (g : AggregationGroup)
    (s : MessageAggregator) :
  now < mute_until s →
  aggregation_groups s !! k = Some g →
  aggregation_groups (_send_aggregated_messages now k s).1 !! k = Some g.
Proof.
  intros Hmute Hg. unfold _send_aggregated_messages. by rewrite is_muted_true.
Qed.

(** When the mute is not active, the group is taken out of the table and
    its messages, in the order they are held, go to the targets of the
    first one. *)
Lemma drain_unmuted (now : Z) (k : string) (g : AggregationGroup)
    (s : MessageAggregator) :
  (mute_until s ≤ now)%Z →
  aggregation_groups s !! k = Some g →
  _send_aggregated_messages now k s = (without_group k s, fan_out (messages g)).
Proof.
  intros Hmute Hg. unfold _send_aggregated_messages.
  rewrite is_muted_false by done. rewrite Hg. by destruct (messages g).
Qed.

(** C10: the bundle of a drained group goes to the targets listed on its
    first message and to no other: every send of the drain is addressed to
    one of them, so a target that only a later message lists gets
    nothing. *)
Theorem drain_uses_first_message_targets (now : Z) (k : string)
    (g : AggregationGroup) (first : PendingMessage) (later : list PendingMessage)
    (s : MessageAggregator) :
  aggregation_groups s !! k = Some g →
  messages g = first :: later →
  ((mute_until s ≤ now)%Z →
     (_send_aggregated_messages now k s).2
     = map (λ target, {| to := target; bundle := first :: later |}) (targets first))
  ∧ (∀ out, out ∈ (_send_aggregated_messages now k s).2 →
       to out ∈ targets first ∧ bundle out = first :: later)
  ∧ (∀ target, target ∉ targets first →
       ∀ out, out ∈ (_send_aggregated_messages now k s).2 → to out ≠ target).
Proof.
  intros Hg Hmsgs.
  assert (∀ out, out ∈ (_send_aggregated_messages now k s).2 →
            to out ∈ targets first ∧ bundle out = first :: later) as Hsends.
  { unfold _send_aggregated_messages.
    destruct (is_muted now s); [by intros ? ?%elem_of_nil |].
    rewrite Hg, Hmsgs. simpl.
    intros out (target & -> & Hin)%list_elem_of_fmap. done. }
  split; [| split; [done |]].
  - intros Hmute. rewrite (drain_unmuted now k g s Hmute Hg), Hmsgs. done.
  - intros target Hnot out Hout Heq. destruct (Hsends out Hout) as [Hto _].
    by rewrite Heq in Hto.
Qed.

(** *** A burst within one window *)

Example keep_last_examples :
  keep_last 10 (seq 0 12) = seq 2 10 ∧ keep_last 10 (seq 0 3) = seq 0 3.
Proof. split; reflexivity. Qed.


Lemma keep_last_short {A} (n : nat) (l : list A) :
  (length l ≤ n)%nat → keep_last n l = l.
Proof.
  intros Hlen. unfold keep_last.
  replace (length l - n)%nat with 0%nat by lia. apply drop_0.
Qed.

Lemma keep_last_trim {A} (n : nat) (l : list A) :
  (if bool_decide (n < length l)%nat then keep_last n l else l) = keep_last n l.
Proof.
  case_bool_decide; [done |]. symmetry. apply keep_last_short. lia.
Qed.


Lemma keep_last_suffix {A} (n : nat) (l : list A) :
  keep_last n l `suffix_of` l ∧ length (keep_last n l) = (length l `min` n)%nat.
Proof.
  unfold keep_last. split; [apply suffix_drop |]. rewrite length_drop. lia.
Qed.




Lemma fire_due_idle (now : Z) (ids : list nat) (s : MessageAggregator) :
  (∀ id, id ∈ ids → due now id s = false) → fire_due now ids s = (s, []).
Proof.
  induction ids as [|id ids IH]; intros Hidle; [done |].
  simpl. rewrite Hidle by apply list_elem_of_here.
  rewrite IH; [done |]. intros j Hj. apply Hidle. by apply list_elem_of_further.
Qed.


Lemma quiescent_not_due (now : Z) (id : nat) (s : MessageAggregator) :
  quiescent s → due now id s = false.
Proof.
  intros Hq. unfold due. destruct (timers s !! id) as [tm|] eqn:Hid; [| done].
  unfold is_alive. rewrite bool_decide_eq_false_2; [done |]. by eapply Hq.
Qed.

Lemma advance_quiescent (now : Z) (s : MessageAggregator) :
  quiescent s → advance now s = (s, []).
Proof.
  intros Hq. apply fire_due_idle. intros id _. by apply quiescent_not_due.
Qed.






(** *** Examples *)

Lemma muted_sends_nothing_witness :
  Aggregator.add_message (5 * usec) "qq_1" Fixtures.m2 [Fixtures.t1]
    Fixtures.muted_with_backlog
  = (Fixtures.muted_with_backlog, false)
  ∧ (_send_aggregated_messages (5 * usec) "qq_1" Fixtures.muted_with_backlog).2 = []
  ∧ (advance (5 * usec) Fixtures.muted_with_backlog).2 = [].
Proof.
  apply (muted_sends_nothing (5 * usec) "qq_1" Fixtures.m2 [Fixtures.t1]
           Fixtures.muted_with_backlog).
  vm_compute. reflexivity.
Defined.

Lemma muted_drain_keeps_group_witness :
  aggregation_groups
    (_send_aggregated_messages (5 * usec) "qq_1" Fixtures.muted_with_backlog).1
  !! "qq_1" = Some Fixtures.backlog_group.
Proof.
  apply (muted_drain_keeps_group (5 * usec) "qq_1" Fixtures.backlog_group
           Fixtures.muted_with_backlog).
  - vm_compute. reflexivity.
  - vm_compute. reflexivity.
Defined.

(** The message whose drain fell into the mute is not gone: it leaves
    with the next bundle of its key once the mute is over. *)
Lemma muted_backlog_resurfaces :
  (advance (705 * usec)
     (run [ (0, Add "qq_1" Fixtures.m1 [Fixtures.t1]);
            (1 * usec, SetMute 10);
            (700 * usec, Add "qq_1" Fixtures.m2 [Fixtures.t1]) ]
          (init 5)).1).2
  = [ {| to := Fixtures.t1;
         bundle := [ pending_of (0, Fixtures.m1, [Fixtures.t1]);
                     pending_of (700 * usec, Fixtures.m2, [Fixtures.t1]) ] |} ].
Proof. vm_compute. reflexivity. Qed.

Lemma drain_uses_first_message_targets_witness :
  (_send_aggregated_messages 10 "qq_1" Fixtures.mixed_aggregator).2
  = [ {| to := Fixtures.t1; bundle := messages Fixtures.mixed_group |} ].
Proof.
  refine (proj1 (drain_uses_first_message_targets 10 "qq_1" Fixtures.mixed_group
                   (pending_of (0, Fixtures.m1, [Fixtures.t1]))
                   [pending_of (1, Fixtures.m2, [Fixtures.t2])]
                   Fixtures.mixed_aggregator _ _) _).
  - vm_compute. reflexivity.
  - reflexivity.
  - vm_compute. discriminate.
Defined.



End AggregatorFacts.

(* ===================================================================== *)
(** ** Rate limiting *)
(* ===================================================================== *)

Section RateLimitFacts.

Import RateLimit.




(** The counter is shared by the classes: after fifty generic requests the
    first AI call is refused, and the refusal carries the limit, not a
    remaining time. *)
Lemma ai_call_refused_after_generic_requests :
  (check_rate_limit (50 * usec) "10001" "ai_call"
     (calls (map (λ i : Z, (i * usec, "request")) (Z.of_nat <$> seq 0 50))
            "10001" ∅).1).2
  = (false, Some (Exceeded "ai_call" 50)).
Proof. vm_compute. reflexivity. Qed.


End RateLimitFacts.

(* ===================================================================== *)
(** ** Submitting an AI review *)
(* ===================================================================== *)

Section ReviewFacts.

Import Review.

Example summary_reports_error_examples :
  summary_reports_error "Internal ERROR while reviewing" = true
  ∧ summary_reports_error "审查异常: timeout" = true
  ∧ summary_reports_error "looks good" = false.
Proof. repeat split; vm_compute; reflexivity. Qed.

Lemma before_submission_app (l l' : list api_call) :
  Forall (λ c, submits c = false) l →
  calls_before_submission (l ++ l') = app l <$> calls_before_submission l'.
Proof.
  induction 1 as [|c l Hc _ IH]; simpl.
  - by destruct (calls_before_submission l').
  - rewrite Hc, IH. by destruct (calls_before_submission l').
Qed.






(** The earlier review is hidden only on the paths that give the review
    up; with a result in dictionary form that is every run, because
    [submit_ai_review] fails on it before it reaches the code host. *)
Lemma dictionary_result_is_not_submitted :
  _perform_ai_review (Fixtures.reviewed_before (AsDict Fixtures.approving))
  = [ get_pr_files; review_code_changes; get_pr_reviews; hide_review_as_outdated 7;
      find_bot_comment_by_keywords; create_issue_comment SubmitFailed;
      remove_review_request ].
Proof. vm_compute. reflexivity. Qed.

End ReviewFacts.

(* ===================================================================== *)
(** ** The permission store: levels and bindings *)
(* ===================================================================== *)

Section PermissionStoreFacts.

Import Permission PermissionStore.

Lemma qq_level_round_trip (l : QQPermissionLevel) :
  qq_level_of_string (qq_level_value l) = Some l.
Proof. by destruct l. Qed.

Lemma qq_level_su (s : string) : qq_level_of_string s = Some SU ↔ s = "su".
Proof.
  unfold qq_level_of_string.
  destruct (String.eqb s "none") eqn:H1; [apply String.eqb_eq in H1 as ->; done |].
  destruct (String.eqb s "read") eqn:H2; [apply String.eqb_eq in H2 as ->; done |].
  destruct (String.eqb s "write") eqn:H3; [apply String.eqb_eq in H3 as ->; done |].
  destruct (String.eqb s "su") eqn:H4.
  - apply String.eqb_eq in H4 as ->. done.
  - apply String.eqb_neq in H4. done.
Qed.

Lemma bound_name_Some (o : option string) (g : string) :
  bound_name o = Some g ↔ o = Some g ∧ g ≠ "".
Proof.
  unfold bound_name. destruct o as [g'|].
  - destruct (String.eqb g' "") eqn:Hg.
    + apply String.eqb_eq in Hg as ->. split; [done | by intros [[= <-] ?]].
    + apply String.eqb_neq in Hg.
      split; [by intros [= <-] | by intros [[= <-] _]].
  - split; [done | by intros [? _]].
Qed.

(** X1: a chat user bound to a code-host user has at least READ,
    whatever level is stored for it. *)
Theorem bound_user_has_read (pm : SimplifiedPermissionManager) (u g : string) :
  get_github_by_qq pm u = Some g → g ≠ "" →
  has_qq_permission pm u READ = true.
Proof.
  intros Hg Hne. unfold has_qq_permission, _get_effective_qq_permission.
  rewrite (proj2 (bound_name_Some _ g) (conj Hg Hne)).
  by destruct (get_qq_permission pm u).
Qed.

(** The levels are cumulative: who holds a level holds every lower one. *)
Lemma has_qq_permission_downward (pm : SimplifiedPermissionManager) (u : string)
    (held lower : QQPermissionLevel) :
  has_qq_permission pm u held = true →
  permission_hierarchy lower <= permission_hierarchy held →
  has_qq_permission pm u lower = true.
Proof.
  unfold has_qq_permission. intros Hheld%bool_decide_eq_true Hle.
  apply bool_decide_eq_true. lia.
Qed.

(** X2: [set_qq_permission] refuses the super-user level and leaves
    the store as it was; any other level is read back by
    [get_qq_permission] for that user (a super-user stays SU) and nobody
    else's level changes. *)
Theorem set_qq_permission_lookup (pm : SimplifiedPermissionManager) (q : string)
    (l : QQPermissionLevel) :
  set_qq_permission pm q SU = (pm, false)
  ∧ (l ≠ SU →
       (set_qq_permission pm q l).2 = true
       ∧ get_qq_permission (set_qq_permission pm q l).1 q
         = (if is_superuser pm q then SU else l))
  ∧ (∀ q', q' ≠ q →
       get_qq_permission (set_qq_permission pm q l).1 q' = get_qq_permission pm q').
Proof.
  split; [done |]. split.
  - intros Hl. destruct l; try done; (split; [done |]);
      unfold get_qq_permission, is_superuser; simpl;
      destruct (existsb _ _); try done; by rewrite lookup_insert_eq.
  - intros q' Hne. destruct l; unfold get_qq_permission, is_superuser; simpl;
      try done; by rewrite lookup_insert_ne.
Qed.

Lemma get_qq_permission_su (pm : SimplifiedPermissionManager) (u : string) :
  no_stored_su pm → get_qq_permission pm u = SU ↔ is_superuser pm u = true.
Proof.
  intros Hno. unfold get_qq_permission.
  destruct (is_superuser pm u); [done |]. split; [| done].
  destruct (qq_permissions pm !! u) as [s|] eqn:Hs; simpl; [| done].
  destruct (qq_level_of_string s) as [l|] eqn:Hl; simpl; [| done].
  intros ->. apply qq_level_su in Hl as ->. by destruct (Hno u).
Qed.

(** X3: the super-user level cannot be handed out: when no entry of
    the table says [su], none does after [set_qq_permission] or
    [remove_qq_permission], and a user is at SU exactly when it is on the
    super-user list. *)
Theorem su_only_from_superuser_list (pm : SimplifiedPermissionManager)
    (q : string) (l : QQPermissionLevel) :
  no_stored_su pm →
  no_stored_su (set_qq_permission pm q l).1
  ∧ no_stored_su (remove_qq_permission pm q).1
  ∧ (∀ u, get_qq_permission (set_qq_permission pm q l).1 u = SU
          ↔ is_superuser pm u = true).
Proof.
  intros Hno.
  assert (no_stored_su (set_qq_permission pm q l).1) as Hset.
  { intros u. destruct l; simpl; try apply Hno;
      (destruct (decide (q = u)) as [-> | Hne];
       [by rewrite lookup_insert_eq | rewrite lookup_insert_ne by done; apply Hno]). }
  split; [done |]. split.
  - intros u. simpl. destruct (decide (q = u)) as [-> | Hne].
    + by rewrite lookup_delete_eq.
    + rewrite lookup_delete_ne by done. apply Hno.
  - intros u. rewrite (get_qq_permission_su _ u Hset). by destruct l.
Qed.

(** X4: only a super-user administers: for an operator that is not on
    the super-user list (and a table without [su] entries) the three
    [manage_] operations answer False and change nothing. *)
Theorem manage_needs_superuser (pm : SimplifiedPermissionManager)
    (operator target g action : string) (l : QQPermissionLevel)
    (gl : GitHubPermissionLevel) :
  no_stored_su pm → is_superuser pm operator = false →
  manage_qq_permission pm operator target l = (pm, false)
  ∧ manage_github_permission pm operator g gl = (pm, false)
  ∧ manage_user_binding pm operator target g action = (pm, false).
Proof.
  intros Hno Hop.
  assert (has_qq_permission pm operator SU = false) as Hsu.
  { unfold has_qq_permission, _get_effective_qq_permission.
    destruct (get_qq_permission pm operator) eqn:Hl;
      try (destruct (bound_name _)); try done.
    apply (get_qq_permission_su pm operator Hno) in Hl. congruence. }
  unfold manage_qq_permission, manage_github_permission, manage_user_binding.
  by rewrite Hsu.
Qed.

Lemma remove_first_other (x y : string) (l : list string) :
  y ≠ x → y ∈ l → y ∈ remove_first x l.
Proof.
  intros Hne. induction l as [|z l IH]; simpl; [done |].
  intros [-> | Hin]%elem_of_cons.
  - destruct (String.eqb x z) eqn:Hxz; [| apply list_elem_of_here].
    apply String.eqb_eq in Hxz. congruence.
  - destruct (String.eqb x z); [done |]. apply list_elem_of_further. by apply IH.
Qed.

Lemma remove_first_snoc (x : string) (l : list string) :
  x ∉ l → remove_first x (l ++ [x]) = l.
Proof.
  induction l as [|z l IH]; simpl; intros Hnot.
  - by rewrite String.eqb_refl.
  - apply not_elem_of_cons in Hnot as [Hne Hnot].
    apply String.eqb_neq in Hne. rewrite Hne. by rewrite IH.
Qed.

Lemma mem_false (x : string) (l : list string) : mem x l = false ↔ x ∉ l.
Proof.
  rewrite <- mem_elem_of. by destruct (mem x l).
Qed.

(** X5: after [bind_qq_github] the chat user resolves to the code-host
    user and is listed under it; both [bind_qq_github] and
    [unbind_qq_github] keep every binding listed in the inverse table. *)
Theorem bindings_stay_listed (pm : SimplifiedPermissionManager) (q g : string) :
  bindings_listed pm →
  (get_github_by_qq (bind_qq_github pm q g).1 q = Some g
   ∧ q ∈ get_qq_by_github (bind_qq_github pm q g).1 g)
  ∧ bindings_listed (bind_qq_github pm q g).1
  ∧ bindings_listed (unbind_qq_github pm q).1
  ∧ get_github_by_qq (unbind_qq_github pm q).1 q
    = (if bound_name (get_github_by_qq pm q) is Some _ then None
       else get_github_by_qq pm q).
Proof.
  intros Hlisted.
  assert (q ∈ get_qq_by_github (bind_qq_github pm q g).1 g) as Hin.
  { unfold get_qq_by_github. simpl. rewrite lookup_insert_eq. simpl.
    destruct (mem q _) eqn:Hmem; [by apply mem_elem_of |].
    apply elem_of_app. right. apply list_elem_of_here. }
  split; [split; [apply lookup_insert_eq | done] |]. split; [| split].
  - intros q0 g0. simpl. destruct (decide (q = q0)) as [<- | Hne].
    + rewrite lookup_insert_eq. by intros [= <-].
    + rewrite lookup_insert_ne by done. intros Hq0%Hlisted.
      unfold get_qq_by_github in *. simpl.
      destruct (decide (g = g0)) as [<- | Hg].
      * rewrite lookup_insert_eq. simpl.
        destruct (mem q _); [done |]. apply elem_of_app. by left.
      * by rewrite lookup_insert_ne.
  - unfold unbind_qq_github.
    destruct (bound_name (qq_github_mapping pm !! q)) as [g1|] eqn:Hb; [| done].
    intros q0 g0. simpl. destruct (decide (q = q0)) as [<- | Hne].
    { by rewrite lookup_delete_eq. }
    rewrite lookup_delete_ne by done. intros Hq0%Hlisted.
    unfold get_qq_by_github in *. simpl.
    destruct (decide (g1 = g0)) as [<- | Hg].
    + destruct (github_qq_mapping pm !! g1) as [l|] eqn:Hl; simpl in Hq0;
        [| by apply elem_of_nil in Hq0].
      assert (q0 ∈ (if mem q l then remove_first q l else l)) as Hkeep.
      { destruct (mem q l); [| done]. by apply remove_first_other. }
      destruct (if mem q l then remove_first q l else l) as [|z l'] eqn:Hl';
        [by apply elem_of_nil in Hkeep |].
      by rewrite lookup_insert_eq.
    + destruct (github_qq_mapping pm !! g1) as [l|] eqn:Hl; [| done].
      destruct (if mem q l then remove_first q l else l);
        [by rewrite lookup_delete_ne | by rewrite lookup_insert_ne].
  - unfold unbind_qq_github, get_github_by_qq.
    destruct (bound_name (qq_github_mapping pm !! q)) as [g1|] eqn:Hb; [| done].
    simpl. apply lookup_delete_eq.
Qed.

(** X6: binding a chat user again, to another code-host user, moves
    the binding but leaves the chat user listed under the former one. *)
Theorem rebind_leaves_old_listing (pm : SimplifiedPermissionManager)
    (q g1 g2 : string) :
  g1 ≠ g2 →
  get_github_by_qq (bind_qq_github (bind_qq_github pm q g1).1 q g2).1 q = Some g2
  ∧ q ∈ get_qq_by_github (bind_qq_github (bind_qq_github pm q g1).1 q g2).1 g1.
Proof.
  intros Hne. split; [apply lookup_insert_eq |].
  unfold get_qq_by_github. simpl.
  rewrite lookup_insert_ne by done. rewrite lookup_insert_eq. simpl.
  destruct (mem q _) eqn:Hmem; [by apply mem_elem_of |].
  apply elem_of_app. right. apply list_elem_of_here.
Qed.

(** X7: binding and unbinding cancel: for a chat user that was not
    bound, and a code-host user under which it was not listed (and whose
    list, if there is one, is not empty), [unbind_qq_github] after
    [bind_qq_github] gives the store back. *)
Theorem unbind_after_bind (pm : SimplifiedPermissionManager) (q g : string) :
  g ≠ "" →
  qq_github_mapping pm !! q = None →
  q ∉ get_qq_by_github pm g →
  github_qq_mapping pm !! g ≠ Some [] →
  (unbind_qq_github (bind_qq_github pm q g).1 q).1 = pm.
Proof.
  intros Hg Hfree Hnot Hnonempty.
  unfold unbind_qq_github, bind_qq_github. simpl.
  rewrite lookup_insert_eq. simpl.
  apply String.eqb_neq in Hg. rewrite Hg. simpl.
  rewrite lookup_insert_eq.
  unfold get_qq_by_github in Hnot.
  rewrite (proj2 (mem_false _ _) Hnot).
  assert (mem q (default [] (github_qq_mapping pm !! g) ++ [q]) = true) as ->.
  { apply mem_elem_of, elem_of_app. right. apply list_elem_of_here. }
  rewrite (remove_first_snoc _ _ Hnot).
  destruct pm as [su qp gp fw inv]. unfold with_mappings. simpl in *. f_equal.
  - by rewrite delete_insert_id.
  - destruct (inv !! g) as [l|] eqn:Hl; simpl.
    + destruct l as [|z l]; [done |].
      rewrite insert_insert_eq. by apply insert_id.
    + by rewrite delete_insert_id.
Qed.

Lemma bound_user_has_read_witness :
  get_qq_permission Samples.store "10002" = NONE
  ∧ has_qq_permission Samples.store "10002" READ = true.
Proof.
  split; [reflexivity |].
  apply (bound_user_has_read Samples.store "10002" "bob"); [reflexivity | done].
Defined.

Lemma set_qq_permission_lookup_witness :
  get_qq_permission (set_qq_permission Samples.store "10002" WRITE).1 "10002" = WRITE
  ∧ get_qq_permission (set_qq_permission Samples.store "1" READ).1 "1" = SU.
Proof.
  split.
  - refine (proj2 (proj1 (proj2 (set_qq_permission_lookup Samples.store "10002" WRITE))
                     _)). done.
  - refine (proj2 (proj1 (proj2 (set_qq_permission_lookup Samples.store "1" READ))
                     _)). done.
Defined.

Lemma sample_store_no_su : no_stored_su Samples.store.
Proof.
  intros q. unfold Samples.store. simpl.
  destruct (decide (q = "10003")) as [-> | Hne].
  - by rewrite lookup_singleton_eq.
  - by rewrite lookup_singleton_ne.
Qed.

Lemma su_only_from_superuser_list_witness :
  get_qq_permission (set_qq_permission Samples.store "10002" WRITE).1 "10002" = SU
  ↔ is_superuser Samples.store "10002" = true.
Proof.
  exact (proj2 (proj2 (su_only_from_superuser_list Samples.store "10002" WRITE
                         sample_store_no_su)) "10002").
Defined.

Lemma manage_needs_superuser_witness :
  manage_qq_permission Samples.store "10003" "10003" WRITE = (Samples.store, false)
  ∧ manage_qq_permission Samples.store "1" "10002" READ
    = set_qq_permission Samples.store "10002" READ.
Proof.
  split; [| reflexivity].
  exact (proj1 (manage_needs_superuser Samples.store "10003" "10003" "bob" "bind"
                  WRITE GH_WRITE sample_store_no_su eq_refl)).
Defined.

Lemma sample_store_listed : bindings_listed Samples.store.
Proof.
  intros q g. unfold Samples.store, get_qq_by_github. simpl.
  destruct (decide (q = "10002")) as [-> | Hne].
  - rewrite lookup_singleton_eq. intros [= <-]. rewrite lookup_singleton_eq.
    apply list_elem_of_here.
  - by rewrite lookup_singleton_ne.
Qed.

Lemma bindings_stay_listed_witness :
  get_github_by_qq (bind_qq_github Samples.store "10003" "carol").1 "10003"
  = Some "carol"
  ∧ bindings_listed (unbind_qq_github Samples.store "10002").1.
Proof.
  pose proof (bindings_stay_listed Samples.store "10003" "carol" sample_store_listed)
    as [[Hbound _] _].
  pose proof (bindings_stay_listed Samples.store "10002" "bob" sample_store_listed)
    as (_ & _ & Hunbind & _).
  split; [exact Hbound | exact Hunbind].
Defined.

Lemma rebind_leaves_old_listing_witness :
  get_github_by_qq (bind_qq_github Samples.store "10002" "carol").1 "10002"
  = Some "carol"
  ∧ "10002" ∈ get_qq_by_github
                (bind_qq_github (bind_qq_github Samples.store "10002" "bob").1
                   "10002" "carol").1 "bob".
Proof.
  split; [reflexivity |].
  refine (proj2 (rebind_leaves_old_listing Samples.store "10002" "bob" "carol" _)).
  done.
Defined.

Lemma unbind_after_bind_witness :
  (unbind_qq_github (bind_qq_github Samples.store "10003" "bob").1 "10003").1
  = Samples.store.
Proof.
  apply (unbind_after_bind Samples.store "10003" "bob").
  - done.
  - reflexivity.
  - unfold get_qq_by_github. simpl. rewrite lookup_singleton_eq. simpl.
    intros [Heq | Hin%elem_of_nil]%elem_of_cons; done.
  - simpl. by rewrite lookup_singleton_eq.
Defined.

End PermissionStoreFacts.

(* ===================================================================== *)
(** ** The permission gate on the other tools *)
(* ===================================================================== *)

Section ToolGateFacts.

Import Permission Mcp Tools.


Lemma read_operation_not_store_write (tool : string) :
  mem tool read_operations = true → mem tool Permission.write_operations = false.
Proof.
  intros Hin%mem_elem_of. unfold read_operations in Hin.
  repeat (apply elem_of_cons in Hin as [-> | Hin]); try reflexivity.
  by apply elem_of_nil in Hin.
Qed.

Lemma store_write_is_tool_write (tool : string) :
  mem tool Permission.write_operations = true → mem tool Mcp.write_operations = true.
Proof.
  intros Hin%mem_elem_of. unfold Permission.write_operations in Hin.
  repeat (apply elem_of_cons in Hin as [-> | Hin]); try reflexivity.
  by apply elem_of_nil in Hin.
Qed.

Lemma check_unlisted_operation (pm : SimplifiedPermissionManager) (u op : string) :
  mem op Permission.write_operations = false →
  check_mcp_write_permission pm u op = true.
Proof. intros Hop. unfold check_mcp_write_permission. by rewrite Hop. Qed.

Lemma required_permissions_error (pm : SimplifiedPermissionManager) (u : string)
    (tags : list string) (e : MCPPermissionError) :
  check_required_permissions pm u tags = Some e → ∃ l, e = NeedsLevel l.
Proof.
  induction tags as [|tag tags IH]; simpl; [done |].
  destruct (negb (has_qq_permission pm u (permission_mapping tag))); [| done].
  intros [= <-]. eauto.
Qed.





(** X10: two of the four refusals of [_check_tool_permissions] cannot
    happen: the first gate never refuses a read operation and never
    answers that an operation cannot be executed, whatever the tool, its
    tags and the user; a refusal is either the write refusal or comes from
    the tag loop. *)
Theorem read_and_unknown_refusals_unreachable (self : MCPTools) (tool : string)
    (cfg : tool_config) (u : string) :
  _check_tool_permissions self tool cfg u ≠ Some NeedsRead
  ∧ _check_tool_permissions self tool cfg u ≠ Some CannotExecute.
Proof.
  unfold _check_tool_permissions.
  destruct (permission_manager self) as [pm|]; [| done].
  set (who := if String.eqb u "" then current_qq_id self else u).
  destruct (String.eqb who ""); [done |].
  destruct (has_qq_permission pm who SU); [done |].
  assert (∀ e, check_required_permissions pm who (permissions cfg) = Some e →
               e ≠ NeedsRead ∧ e ≠ CannotExecute) as Hloop.
  { intros e (l & ->)%required_permissions_error. done. }
  assert (check_required_permissions pm who (permissions cfg) ≠ Some NeedsRead
          ∧ check_required_permissions pm who (permissions cfg) ≠ Some CannotExecute)
    as [Hr Hc].
  { split; intros He; by destruct (Hloop _ He). }
  destruct (mem tool Mcp.write_operations) eqn:Hw.
  { by destruct (negb (check_mcp_write_permission pm who tool)). }
  destruct (mem tool read_operations) eqn:Hrd.
  { rewrite (check_unlisted_operation pm who tool
               (read_operation_not_store_write tool Hrd)), orb_true_r. done. }
  assert (mem tool Permission.write_operations = false) as Hsw.
  { destruct (mem tool Permission.write_operations) eqn:Hsw; [| done].
    apply store_write_is_tool_write in Hsw. congruence. }
  by rewrite (check_unlisted_operation pm who tool Hsw).
Qed.



End ToolGateFacts.

(* ===================================================================== *)
(** ** Webhook submission: cache, gates and the worker *)
(* ===================================================================== *)

Section SubmissionFacts.

Import Webhook.

Ltac submission_cases :=
  repeat match goal with
  | |- context [ if ?b then _ else _ ] => destruct b eqn:?
  | |- context [ match ?x with _ => _ end ] => destruct x eqn:?
  end.

Ltac absent_call :=
  match goal with
  | H : _ ∈ _ |- _ =>
      exfalso; repeat (apply elem_of_cons in H as [H | H]; [discriminate H |]);
      by apply elem_of_nil in H
  end.

Lemma with_cache_twice (p : WebhookProcessor) (c0 c : gmap string Z) :
  with_cache (with_cache p c0) c = with_cache p c.
Proof. reflexivity. Qed.

Lemma cache_ttl_nonneg : (0 ≤ cache_ttl)%Z.
Proof. done. Qed.

(** X11: after a lookup the cache holds no entry older than an hour
    and it holds the id looked up; the lookup reports a duplicate exactly
    when the id had an entry that is not older than an hour, and otherwise
    records the id with the present instant. *)
Theorem dedup_cache_stays_fresh (now : Z) (id : string) (cache : gmap string Z) :
  (∀ k ts, (_is_duplicate_delivery now id cache).1 !! k = Some ts →
           (now - ts ≤ cache_ttl)%Z)
  ∧ is_Some ((_is_duplicate_delivery now id cache).1 !! id)
  ∧ ((_is_duplicate_delivery now id cache).2 = true
     ↔ ∃ ts, cache !! id = Some ts ∧ (now - ts ≤ cache_ttl)%Z)
  ∧ ((_is_duplicate_delivery now id cache).2 = false →
     (_is_duplicate_delivery now id cache).1 !! id = Some now).
Proof.
  unfold _is_duplicate_delivery.
  destruct (expire now cache !! id) as [ts0|] eqn:Hid; simpl.
  - apply expire_lookup in Hid as Hid'. repeat split.
    + intros k ts Hk. by apply expire_lookup in Hk as [_ ?].
    + by exists ts0.
    + intros _. by exists ts0.
    + done.
  - repeat split.
    + intros k ts. destruct (decide (id = k)) as [<- | Hne].
      * rewrite lookup_insert_eq. intros [= <-]. pose proof cache_ttl_nonneg. lia.
      * rewrite lookup_insert_ne by done. intros Hk. by apply expire_lookup in Hk as [_ ?].
    + rewrite lookup_insert_eq. by eexists.
    + done.
    + intros (ts & Hts). apply expire_lookup in Hts. by rewrite Hts in Hid.
    + intros _. apply lookup_insert_eq.
Qed.

Lemma expire_delete (now : Z) (cache : gmap string Z) (id : string) (ts : Z) :
  cache !! id = Some ts → now - ts > cache_ttl →
  expire now (delete id cache) = expire now cache.
Proof.
  intros Hid Hold. apply map_eq. intros k. apply option_eq. intros v.
  rewrite !expire_lookup. destruct (decide (id = k)) as [<- | Hne].
  - rewrite lookup_delete_eq, Hid. split; [by intros [? _] |].
    intros [[= <-] ?]. lia.
  - by rewrite lookup_delete_ne.
Qed.

(** X12: an id whose entry is older than an hour is treated as if it
    had never been seen: the submission ends the same way, makes the same
    calls and leaves the same queue as on a processor whose cache lacks the
    entry; it is not answered as a duplicate, and once the cache has been
    consulted the two processors are left in the same state, the id being
    recorded anew. *)
Theorem expired_delivery_counts_as_new (now ts : Z) (d : WebhookData)
    (p : WebhookProcessor) :
  delivery_cache p !! wd_delivery_id d = Some ts → now - ts > cache_ttl →
  let p' := with_cache p (delete (wd_delivery_id d) (delivery_cache p)) in
  result (process_webhook now d p) = result (process_webhook now d p')
  ∧ calls (process_webhook now d p) = calls (process_webhook now d p')
  ∧ event_queue (after (process_webhook now d p))
    = event_queue (after (process_webhook now d p'))
  ∧ result (process_webhook now d p) ≠ DuplicateDelivery
  ∧ (CallDedup ∈ calls (process_webhook now d p) →
     after (process_webhook now d p) = after (process_webhook now d p')
     ∧ delivery_cache (after (process_webhook now d p)) !! wd_delivery_id d = Some now).
Proof.
  intros Hid Hold p'.
  assert (_is_duplicate_delivery now (wd_delivery_id d) (delivery_cache p)
          = (<[wd_delivery_id d := now]> (expire now (delivery_cache p)), false))
    as Hnew.
  { unfold _is_duplicate_delivery.
    destruct (expire now (delivery_cache p) !! wd_delivery_id d) as [ts'|] eqn:He;
      [| done].
    apply expire_lookup in He as [He ?]. rewrite Hid in He. injection He as <-. lia. }
  assert (_is_duplicate_delivery now (wd_delivery_id d) (delivery_cache p')
          = (<[wd_delivery_id d := now]> (expire now (delivery_cache p)), false))
    as Hnew'.
  { rewrite <- Hnew. unfold _is_duplicate_delivery, p'. simpl.
    by rewrite (expire_delete now _ _ ts Hid Hold). }
  unfold process_webhook.
  destruct (negb (_validate_event (make_event d))).
  { simpl. repeat split; try done; absent_call. }
  destruct (_extract_repository_name (payload (make_event d))) as [repo|].
  2:{ simpl. repeat split; try done; absent_call. }
  change (delivery_id (with_repository (make_event d) repo)) with (wd_delivery_id d).
  rewrite Hnew, Hnew'. subst p'. cbv beta iota zeta.
  rewrite !with_cache_twice.
  submission_cases; simpl; repeat split; try done; apply lookup_insert_eq.
Qed.

(** X13: whatever is put on the queue has passed every gate: the event
    is well-formed and of a supported type, its repository is a name that
    the configuration knows with a non-empty entry, the repository is
    enabled and the signature check accepted it. *)
Theorem enqueued_event_passed_every_gate (now : Z) (d : WebhookData)
    (p : WebhookProcessor) :
  result (process_webhook now d p) = Enqueued →
  ∃ name cfg,
    event_queue (after (process_webhook now d p))
    = event_queue p ++ [with_repository (make_event d) (Json.Str name)]
    ∧ wd_event_type d ∈ supported_events
    ∧ wd_delivery_id d ≠ ""
    ∧ _extract_repository_name (wd_payload d) = Some (Json.Str name)
    ∧ name ≠ ""
    ∧ repo_mappings p !! name = Some cfg ∧ Json.truthy cfg = true
    ∧ _is_repository_enabled p (Json.Str name) = Some true
    ∧ _verify_webhook_signature p (with_repository (make_event d) (Json.Str name))
      = Some true.
Proof.
  unfold process_webhook.
  destruct (negb (_validate_event (make_event d))) eqn:Hvalid; [done |].
  apply negb_false_iff in Hvalid.
  destruct (_extract_repository_name (payload (make_event d))) as [repo|] eqn:Hrepo;
    [| done].
  destruct (_is_duplicate_delivery now _ _) as [cache []]; [done |].
  destruct (negb (Json.truthy repo)) eqn:Htruthy; [done |].
  destruct (get_repository_config _ repo) as [o|] eqn:Hcfg; [| done].
  destruct (negb (Json.truthy_opt o)) eqn:Ho; [done |].
  destruct (_is_repository_enabled _ repo) as [[]|] eqn:Hen; try done.
  destruct (_verify_webhook_signature _ _) as [[]|] eqn:Hsig; try done.
  destruct (queue_put _ _) as [q|] eqn:Hput; [| done].
  intros _. simpl.
  apply queue_put_capacity in Hput as [-> _].
  destruct o as [cfg|]; [| done]. apply negb_false_iff in Ho, Htruthy.
  destruct repo as [| | |name| |]; simpl in Hcfg; try done.
  injection Hcfg as Hcfg.
  exists name, cfg.
  unfold _validate_event in Hvalid. simpl in Hvalid.
  destruct (String.eqb (wd_event_type d) "") eqn:Hty; [done |].
  destruct (String.eqb (wd_delivery_id d) "") eqn:Hdel; [done |].
  destruct (negb (Json.truthy (wd_payload d))); [done |].
  destruct (is_supported (wd_event_type d)) eqn:Hsup; [| done].
  repeat split; try done.
  - unfold is_supported in Hsup. apply existsb_exists in Hsup as (x & Hx & Heq).
    apply String.eqb_eq in Heq as ->. by apply list_elem_of_In.
  - by apply String.eqb_neq.
  - simpl in Htruthy. intros ->. done.
Qed.


(** X15: the switch under ["webhook"] wins: when it is set and falsy
    the event passes without a look at the signature, whatever the
    top-level switch says and whether or not a secret or a verifier is
    there. *)
Theorem nested_switch_disables_verification (p : WebhookProcessor)
    (event : WebhookEvent) (name : string) (cfg wcfg : list (string * Json.value))
    (switch : Json.value) :
  repository event = Json.Str name → name ≠ "" →
  repo_mappings p !! name = Some (Json.Obj cfg) →
  Json.assoc "webhook" cfg = Some (Json.Obj wcfg) →
  Json.assoc "verify_signature" wcfg = Some switch →
  Json.truthy switch = false →
  _verify_webhook_signature p event = Some true.
Proof.
  intros Hrepo Hname Hcfg Hwebhook Hswitch Hoff.
  apply String.eqb_neq in Hname.
  unfold _verify_webhook_signature.
  rewrite Hrepo. simpl Json.truthy. rewrite Hname. simpl negb. cbv iota.
  unfold get_repository_config. rewrite Hcfg. simpl.
  rewrite Hwebhook. simpl. rewrite Hswitch. simpl. by rewrite Hoff.
Qed.

(** X16: a payload that is not a dictionary is turned away with False
    before the cache is touched: the processor stays as it was. *)
Theorem non_dictionary_payload_rejected (now : Z) (d : WebhookData)
    (p : WebhookProcessor) :
  Json.is_dict (wd_payload d) = false →
  returned (result (process_webhook now d p)) = Some false
  ∧ after (process_webhook now d p) = p.
Proof.
  intros Hdict. unfold process_webhook.
  destruct (negb (_validate_event (make_event d))) eqn:Hvalid; [done |].
  assert (_extract_repository_name (payload (make_event d)) = None) as ->; [| done].
  unfold _validate_event in Hvalid. simpl in *.
  destruct (String.eqb (wd_event_type d) ""); [done |].
  destruct (String.eqb (wd_delivery_id d) ""); [done |].
  destruct (negb (Json.truthy (wd_payload d))) eqn:Ht; [done |].
  unfold _extract_repository_name. rewrite Ht.
  by destruct (wd_payload d).
Qed.

Lemma expired_delivery_counts_as_new_witness :
  result (process_webhook (3601 * usec) (Fixtures.delivery "d1" "") Samples.seen_d1)
  = Enqueued
  ∧ result (process_webhook (3601 * usec) (Fixtures.delivery "d1" "") Samples.seen_d1)
    ≠ DuplicateDelivery.
Proof.
  split; [vm_compute; reflexivity |].
  refine (proj1 (proj2 (proj2 (proj2
            (expired_delivery_counts_as_new (3601 * usec) 0 (Fixtures.delivery "d1" "")
               Samples.seen_d1 _ _))))).
  - vm_compute. reflexivity.
  - vm_compute. reflexivity.
Defined.

Lemma enqueued_event_passed_every_gate_witness :
  ∃ name cfg,
    event_queue (after (process_webhook 0 (Fixtures.delivery "d1" "") Fixtures.processor))
    = event_queue Fixtures.processor
      ++ [with_repository (make_event (Fixtures.delivery "d1" "")) (Json.Str name)]
    ∧ wd_event_type (Fixtures.delivery "d1" "") ∈ supported_events
    ∧ wd_delivery_id (Fixtures.delivery "d1" "") ≠ ""
    ∧ _extract_repository_name (wd_payload (Fixtures.delivery "d1" ""))
      = Some (Json.Str name)
    ∧ name ≠ ""
    ∧ repo_mappings Fixtures.processor !! name = Some cfg ∧ Json.truthy cfg = true
    ∧ _is_repository_enabled Fixtures.processor (Json.Str name) = Some true
    ∧ _verify_webhook_signature Fixtures.processor
        (with_repository (make_event (Fixtures.delivery "d1" "")) (Json.Str name))
      = Some true.
Proof.
  apply (enqueued_event_passed_every_gate 0 (Fixtures.delivery "d1" "")
           Fixtures.processor).
  vm_compute. reflexivity.
Defined.


Lemma nested_switch_disables_verification_witness :
  _verify_webhook_signature (Samples.processor_of Samples.switched_off_config)
    Samples.forged_event = Some true.
Proof.
  apply (nested_switch_disables_verification _ _ "o/r" Samples.switched_off_config
           [ ("verify_signature", Json.Bool false) ] (Json.Bool false)).
  - reflexivity.
  - discriminate.
  - vm_compute. reflexivity.
  - reflexivity.
  - reflexivity.
  - reflexivity.
Defined.

Lemma non_dictionary_payload_rejected_witness :
  returned (result (process_webhook 0 Samples.list_delivery Fixtures.processor))
  = Some false
  ∧ after (process_webhook 0 Samples.list_delivery Fixtures.processor)
    = Fixtures.processor.
Proof.
  apply (non_dictionary_payload_rejected 0 Samples.list_delivery Fixtures.processor).
  reflexivity.
Defined.

Lemma dedup_cache_stays_fresh_witness :
  (_is_duplicate_delivery (3601 * usec) "d1" {[ "d1" := 0 ]}).1 !! "d1"
  = Some (3601 * usec).
Proof.
  apply (proj2 (proj2 (proj2 (dedup_cache_stays_fresh (3601 * usec) "d1"
                                {[ "d1" := 0 ]})))).
  vm_compute. reflexivity.
Defined.

End SubmissionFacts.

Section WorkerFacts.

Import Worker.

Lemma after_round_counter (r : round) (n : Z) :
  0 <= n < max_consecutive_errors →
  0 <= (after_round r n).1 < max_consecutive_errors
  ∧ ∀ s, (after_round r n).2 = Some s → s ∈ [2; 4; 6; 8; 30].
Proof.
  unfold max_consecutive_errors. intros Hn.
  destruct r; simpl; [split; [lia | done] | split; [lia | done] |].
  unfold max_consecutive_errors. case_bool_decide as Hmax; simpl.
  - split; [lia |]. intros s [= <-]. apply list_elem_of_In. simpl. tauto.
  - split; [lia |]. intros s [= <-].
    assert (n = 0 ∨ n = 1 ∨ n = 2 ∨ n = 3) as [-> | [-> | [-> | ->]]] by lia;
      apply list_elem_of_In; simpl; tauto.
Qed.

Lemma process_event_queue_bounds (rounds : list round) (n : Z) :
  0 <= n < max_consecutive_errors →
  0 <= (_process_event_queue rounds n).1 < max_consecutive_errors
  ∧ ∀ s, s ∈ (_process_event_queue rounds n).2 → s ∈ [2; 4; 6; 8; 30].
Proof.
  revert n. induction rounds as [|r rounds IH]; intros n Hn; simpl.
  - split; [done |]. by intros s ?%elem_of_nil.
  - destruct (after_round_counter r n Hn) as [Hn' Hs].
    destruct (after_round r n) as [n' slept]. simpl in Hn', Hs.
    destruct (IH n' Hn') as [Hn'' Hsleeps].
    destruct (_process_event_queue rounds n') as [n'' sleeps]. simpl in *.
    split; [done |]. intros s Hin.
    destruct slept as [s0|]; [| by apply Hsleeps].
    apply elem_of_cons in Hin as [-> | Hin]; [by apply Hs | by apply Hsleeps].
Qed.

(** X17: the worker, which starts with no error counted, never counts
    five consecutive errors past a pause, and every pause it takes is of
    2, 4, 6 or 8 seconds or of 30 seconds: the cap of ten seconds in the
    back-off is never what decides. *)
Theorem worker_backoff_bounds (rounds : list round) :
  0 <= (_process_event_queue rounds 0).1 < max_consecutive_errors
  ∧ ∀ s, s ∈ (_process_event_queue rounds 0).2 → s ∈ [2; 4; 6; 8; 30].
Proof. by apply process_event_queue_bounds. Qed.

Lemma worker_backoff_bounds_witness :
  (_process_event_queue [Failed; Failed; TimedOut; Failed; Failed; Failed; Handled] 0).2
  = [2; 4; 6; 8; 30]
  ∧ (6 : Z) ∈ [2; 4; 6; 8; 30].
Proof.
  split; [reflexivity |].
  apply (proj2 (worker_backoff_bounds
                  [Failed; Failed; TimedOut; Failed; Failed; Failed; Handled]) 6).
  apply list_elem_of_In. simpl. tauto.
Defined.

End WorkerFacts.

(* ===================================================================== *)
(** ** Aggregator: what holds in every reachable state *)
(* ===================================================================== *)

Section LifecycleFacts.

Import Aggregator Lifecycle.

Lemma cancel_timer_waiting (t : option nat) (ts : list Timer) (id : nat) (tm : Timer) :
  cancel_timer t ts !! id = Some tm → state tm = Waiting →
  ts !! id = Some tm ∧ t ≠ Some id.
Proof.
  unfold cancel_timer. intros Hlook Hwait.
  destruct t as [j|]; [| done].
  destruct (ts !! j) as [tj|] eqn:Hj.
  - unfold is_alive in Hlook. case_bool_decide as Halive.
    + destruct (decide (j = id)) as [-> | Hne].
      * rewrite list_lookup_insert_eq in Hlook by by eapply lookup_lt_Some.
        injection Hlook as <-. done.
      * rewrite list_lookup_insert_ne in Hlook by done. split; [done | congruence].
    + split; [done |]. intros [= ->]. congruence.
  - split; [done |]. intros [= ->]. congruence.
Qed.

Lemma init_reachable (delay : Z) :
  groups_bounded (init delay) ∧ timers_owned (init delay).
Proof.
  split.
  - intros k g Hk. simpl in Hk. by rewrite lookup_empty in Hk.
  - intros id tm Hid. simpl in Hid. by destruct id.
Qed.

Lemma add_message_reachable (now : Z) (k : string) (c : MessageContent)
    (tg : list NotificationTarget) (s : MessageAggregator) :
  groups_bounded s ∧ timers_owned s →
  groups_bounded (add_message now k c tg s).1 ∧ timers_owned (add_message now k c tg s).1.
Proof.
  intros [Hsize Hown]. unfold add_message.
  destruct (is_muted now s); [done |]. simpl.
  set (group := match aggregation_groups s !! k with
                | Some g => g
                | None => _
                end).
  split.
  - intros k' g'. simpl. destruct (decide (k = k')) as [<- | Hne].
    + rewrite lookup_insert_eq. intros [= <-]. simpl.
      rewrite keep_last_trim.
      destruct (keep_last_suffix max_messages_per_group
                  (messages group ++ [{| pm_content := c; timestamp := now;
                                         targets := tg |}])) as [_ ->].
      rewrite length_app. simpl. unfold max_messages_per_group. lia.
    + rewrite lookup_insert_ne by done. apply Hsize.
  - intros id tm. simpl. intros Hlook Hwait.
    rewrite lookup_app in Hlook.
    destruct (cancel_timer (timer group) (timers s) !! id) as [tm'|] eqn:Hold.
    + injection Hlook as ->.
      destruct (cancel_timer_waiting _ _ _ _ Hold Hwait) as [Hid Hother].
      destruct (Hown id tm Hid Hwait) as (g & Hg & Htimer).
      destruct (decide (k = timer_key tm)) as [Heq | Hne].
      * exfalso. apply Hother. unfold group. rewrite Heq, Hg. done.
      * exists g. by rewrite lookup_insert_ne.
    + apply lookup_ge_None in Hold.
      destruct (id - length (cancel_timer (timer group) (timers s)))%nat
        as [|n] eqn:Hdiff; [| by destruct n].
      injection Hlook as <-. simpl. rewrite lookup_insert_eq.
      eexists. split; [done |]. simpl. f_equal. lia.
Qed.

Lemma fire_timer_reachable (id : nat) (s : MessageAggregator) :
  groups_bounded s ∧ timers_owned s →
  (groups_bounded (fire_timer id s).1 ∧ timers_owned (fire_timer id s).1)
  ∧ ∀ snd, snd ∈ (fire_timer id s).2 → bundle_bounded snd.
Proof.
  intros [Hsize Hown]. unfold fire_timer.
  destruct (timers s !! id) as [tm|] eqn:Hid;
    [| split; [done | by intros snd ?%elem_of_nil]].
  unfold is_alive. case_bool_decide as Halive;
    [| split; [done | by intros snd ?%elem_of_nil]].
  destruct (Hown id tm Hid Halive) as (g0 & Hg0 & Htimer0).
  assert (∀ j tj, <[id := set_state tm Finished]> (timers s) !! j = Some tj →
                  state tj = Waiting →
                  j ≠ id ∧ ∃ g, aggregation_groups s !! timer_key tj = Some g
                                ∧ timer g = Some j) as Hrest.
  { intros j tj Hj Hwait. destruct (decide (id = j)) as [<- | Hne].
    - rewrite list_lookup_insert_eq in Hj by by eapply lookup_lt_Some.
      injection Hj as <-. done.
    - rewrite list_lookup_insert_ne in Hj by done. split; [done |]. by apply Hown. }
  unfold _send_aggregated_messages.
  destruct (is_muted _ _).
  { split; [| by intros snd ?%elem_of_nil]. split; [done |].
    intros j tj Hj Hwait. by destruct (Hrest j tj Hj Hwait) as [_ ?]. }
  simpl. rewrite Hg0.
  assert (groups_bounded
            (without_group (timer_key tm)
               {| aggregation_groups := aggregation_groups s;
                  mute_until := mute_until s;
                  aggregation_delay := aggregation_delay s;
                  timers := <[id := set_state tm Finished]> (timers s) |})
          ∧ timers_owned
              (without_group (timer_key tm)
                 {| aggregation_groups := aggregation_groups s;
                    mute_until := mute_until s;
                    aggregation_delay := aggregation_delay s;
                    timers := <[id := set_state tm Finished]> (timers s) |})) as Hafter.
  { split.
    - intros k g. simpl. intros [_ Hk]%lookup_delete_Some. by eapply Hsize.
    - intros j tj. simpl. intros Hj Hwait.
      destruct (Hrest j tj Hj Hwait) as (Hne & g & Hg & Htimer).
      exists g. split; [| done]. rewrite lookup_delete_ne; [done |].
      intros Heq. rewrite <- Heq, Hg0 in Hg. injection Hg as <-. congruence. }
  pose proof (Hsize _ _ Hg0) as Hlen.
  destruct (messages g0) as [|first rest] eqn:Hmsgs.
  { split; [done | by intros snd ?%elem_of_nil]. }
  split; [done |].
  intros snd (target & -> & Htarget)%list_elem_of_fmap. simpl.
  split; [done |]. exists first. done.
Qed.

Lemma fire_due_reachable (now : Z) (ids : list nat) (s : MessageAggregator) :
  groups_bounded s ∧ timers_owned s →
  (groups_bounded (fire_due now ids s).1 ∧ timers_owned (fire_due now ids s).1)
  ∧ ∀ snd, snd ∈ (fire_due now ids s).2 → bundle_bounded snd.
Proof.
  revert s. induction ids as [|id ids IH]; intros s Hs; simpl.
  - split; [done | by intros snd ?%elem_of_nil].
  - assert ((groups_bounded (if due now id s then fire_timer id s else (s, [])).1
             ∧ timers_owned (if due now id s then fire_timer id s else (s, [])).1)
            ∧ ∀ snd, snd ∈ (if due now id s then fire_timer id s else (s, [])).2 →
                     bundle_bounded snd) as [Hs1 Hout1].
    { destruct (due now id s); [by apply fire_timer_reachable |].
      split; [done | by intros snd ?%elem_of_nil]. }
    destruct (if due now id s then fire_timer id s else (s, [])) as [s1 out1].
    destruct (IH s1 Hs1) as [Hs2 Hout2].
    destruct (fire_due now ids s1) as [s2 out2]. simpl in *.
    split; [done |]. intros snd [? | ?]%elem_of_app; auto.
Qed.

Lemma run_reachable (script : list (Z * action)) (s : MessageAggregator) :
  groups_bounded s ∧ timers_owned s →
  (groups_bounded (run script s).1 ∧ timers_owned (run script s).1)
  ∧ ∀ snd, snd ∈ (run script s).2 → bundle_bounded snd.
Proof.
  revert s. induction script as [|[now a] script IH]; intros s Hs; simpl.
  - split; [done | by intros snd ?%elem_of_nil].
  - destruct (fire_due_reachable now (seq 0 (length (timers s))) s Hs) as [Hs1 Hout1].
    fold (advance now s) in Hs1, Hout1.
    destruct (advance now s) as [s1 out1]. simpl in Hs1, Hout1.
    assert (groups_bounded (perform now a s1) ∧ timers_owned (perform now a s1)) as Hs2.
    { destruct a as [k c tg | d]; simpl; [by apply add_message_reachable | done]. }
    destruct (IH _ Hs2) as [Hs3 Hout3].
    destruct (run script (perform now a s1)) as [s3 out3]. simpl in *.
    split; [done |]. intros snd [? | ?]%elem_of_app; auto.
Qed.

(** X18: whatever is added and muted, and whenever, no group ever holds
    more than ten messages, and every bundle handed to the sender carries
    between one and ten messages and goes to a target listed on its first
    message.  This covers the bundles sent during the timeline and those
    sent when the clock runs on afterwards. *)
Theorem bundles_hold_one_to_ten_messages (delay horizon : Z)
    (script : list (Z * action)) :
  (∀ k g, aggregation_groups (run script (init delay)).1 !! k = Some g →
          (1 ≤ length (messages g) ≤ 10)%nat)
  ∧ ∀ snd, snd ∈ (run script (init delay)).2
                 ++ (advance horizon (run script (init delay)).1).2 →
           (1 ≤ length (bundle snd) ≤ 10)%nat
           ∧ ∃ first, head (bundle snd) = Some first ∧ to snd ∈ targets first.
Proof.
  destruct (run_reachable script (init delay) (init_reachable delay)) as [Hs Hout].
  split; [apply Hs |].
  destruct (fire_due_reachable horizon
              (seq 0 (length (timers (run script (init delay)).1))) _ Hs)
    as [_ Hout'].
  intros snd [? | ?]%elem_of_app; [by apply Hout | by apply Hout'].
Qed.

(** X19: at any point of any timeline a key has at most one timer
    waiting, and a waiting timer always has its group: adding to a key
    replaces the pending drain instead of scheduling a second one. *)
Theorem one_waiting_timer_per_key (delay : Z) (script : list (Z * action))
    (i j : nat) (ti tj : Timer) :
  timers (run script (init delay)).1 !! i = Some ti → state ti = Waiting →
  timers (run script (init delay)).1 !! j = Some tj → state tj = Waiting →
  timer_key ti = timer_key tj →
  i = j ∧ is_Some (aggregation_groups (run script (init delay)).1 !! timer_key ti).
Proof.
  destruct (run_reachable script (init delay) (init_reachable delay)) as [[_ Hown] _].
  intros Hi Hwi Hj Hwj Hkey.
  destruct (Hown i ti Hi Hwi) as (gi & Hgi & Hti).
  destruct (Hown j tj Hj Hwj) as (gj & Hgj & Htj).
  rewrite <- Hkey, Hgi in Hgj. injection Hgj as <-.
  split; [congruence | by eexists].
Qed.

Lemma bundles_hold_one_to_ten_messages_witness :
  (1 ≤ length [pending_of (0%Z, Fixtures.m1, [Fixtures.t1]);
               pending_of ((1 * usec)%Z, Fixtures.m2, [Fixtures.t1])] ≤ 10)%nat.
Proof.
  refine (proj1 (proj2 (bundles_hold_one_to_ten_messages 5 (10 * usec) Samples.two_keys)
                   {| to := Fixtures.t1;
                      bundle := [pending_of (0, Fixtures.m1, [Fixtures.t1]);
                                 pending_of (1 * usec, Fixtures.m2, [Fixtures.t1])] |}
                   _)).
  apply elem_of_app. right. vm_compute. apply list_elem_of_here.
Defined.

Lemma one_waiting_timer_per_key_witness :
  state <$> timers (run Samples.two_keys (init 5)).1 !! 0%nat = Some Cancelled
  ∧ is_Some (aggregation_groups (run Samples.two_keys (init 5)).1 !! "qq_1").
Proof.
  split; [vm_compute; reflexivity |].
  refine (proj2 (one_waiting_timer_per_key 5 Samples.two_keys 1 1
                   {| timer_key := "qq_1"; fires_at := 6 * usec; state := Waiting |}
                   {| timer_key := "qq_1"; fires_at := 6 * usec; state := Waiting |}
                   _ _ _ _ _)).
  - vm_compute. reflexivity.
  - reflexivity.
  - vm_compute. reflexivity.
  - reflexivity.
  - reflexivity.
Defined.

Lemma cleanup_quiescent (s : MessageAggregator) :
  timers_owned s → quiescent (cleanup s).
Proof.
  intros Hown.
  assert (∀ id tm,
            map_fold (λ _ group ts, cancel_timer (timer group) ts)
              (timers s) (aggregation_groups s) !! id = Some tm →
            state tm = Waiting →
            timers s !! id = Some tm
            ∧ ∀ k g, aggregation_groups s !! k = Some g → timer g ≠ Some id) as Hfold.
  { apply (map_fold_weak_ind
             (λ r m, ∀ id tm, r !! id = Some tm → state tm = Waiting →
                              timers s !! id = Some tm
                              ∧ ∀ k g, m !! k = Some g → timer g ≠ Some id)).
    - intros id tm Hid _. split; [done |]. intros k g Hk. by rewrite lookup_empty in Hk.
    - intros k g m r Hfresh IH id tm Hid Hwait.
      destruct (cancel_timer_waiting _ _ _ _ Hid Hwait) as [Hr Hne].
      destruct (IH id tm Hr Hwait) as [Hs Hm]. split; [done |].
      intros k' g'. destruct (decide (k = k')) as [<- | Hk].
      + rewrite lookup_insert_eq. by intros [= <-].
      + rewrite lookup_insert_ne by done. apply Hm. }
  intros id tm Hid Hwait. simpl in Hid.
  destruct (Hfold id tm Hid Hwait) as [Hs Hnone].
  destruct (Hown id tm Hs Hwait) as (g & Hg & Htimer).
  by apply (Hnone _ _ Hg).
Qed.

(** X20: after [cleanup], at any point of any timeline, the table of
    groups is empty and nothing is ever sent again, however long the clock
    runs: the messages that were waiting are discarded, not flushed. *)
Theorem cleanup_discards_pending (delay horizon : Z) (script : list (Z * action)) :
  aggregation_groups (cleanup (run script (init delay)).1) = ∅
  ∧ advance horizon (cleanup (run script (init delay)).1)
    = (cleanup (run script (init delay)).1, []).
Proof.
  split; [done |]. apply advance_quiescent, cleanup_quiescent.
  by destruct (run_reachable script (init delay) (init_reachable delay)) as [[_ ?] _].
Qed.

End LifecycleFacts.

(* ===================================================================== *)
(** ** The limiter: counters and the end of a block *)
(* ===================================================================== *)

Section LimiterFacts.

Import RateLimit Limiter.

Lemma limit_of_range (op : string) : 10 <= limit_of op <= 100.
Proof.
  unfold limit_of, global_limits. simpl.
  repeat match goal with
         | |- context [ if ?b then _ else _ ] => destruct b
         end; simpl; lia.
Qed.

Lemma check_rate_limit_counted (now : Z) (uid op : string)
    (user_limits : gmap string RateLimitInfo) :
  counted user_limits → counted (check_rate_limit now uid op user_limits).1.
Proof.
  intros Hc.
  assert (user_id (current_info now uid user_limits) = uid
          ∧ 0 <= request_count (current_info now uid user_limits) <= 100) as Hinfo.
  { unfold current_info. destruct (user_limits !! uid) as [info|] eqn:Hu.
    - by apply Hc.
    - simpl. split; [done | lia]. }
  assert (user_id (reset_if_needed now 3600 (current_info now uid user_limits)) = uid
          ∧ 0 <= request_count
                   (reset_if_needed now 3600 (current_info now uid user_limits)) <= 100)
    as Hreset.
  { unfold reset_if_needed. case_bool_decide; simpl; [| done].
    split; [apply Hinfo | lia]. }
  pose proof (limit_of_range op) as Hrange.
  unfold check_rate_limit. fold (current_info now uid user_limits). fold (limit_of op).
  destruct (is_blocked now (current_info now uid user_limits)); simpl.
  - intros u info. destruct (decide (uid = u)) as [<- | Hne].
    + rewrite lookup_insert_eq. by intros [= <-].
    + rewrite lookup_insert_ne by done. apply Hc.
  - case_bool_decide as Hover; simpl.
    + intros u info. destruct (decide (uid = u)) as [<- | Hne].
      * rewrite lookup_insert_eq. intros [= <-]. simpl. done.
      * rewrite lookup_insert_ne by done. apply Hc.
    + intros u info. destruct (decide (uid = u)) as [<- | Hne].
      * rewrite lookup_insert_eq. intros [= <-]. simpl. split; [apply Hreset | lia].
      * rewrite lookup_insert_ne by done. apply Hc.
Qed.

Lemma serve_counted (script : list (Z * string * string))
    (user_limits : gmap string RateLimitInfo) :
  counted user_limits → counted (serve script user_limits).1.
Proof.
  revert user_limits.
  induction script as [|[[now uid] op] script IH]; intros user_limits Hc; [done |].
  simpl. pose proof (check_rate_limit_counted now uid op user_limits Hc) as Hc1.
  destruct (check_rate_limit now uid op user_limits) as [l1 [ok msg]].
  specialize (IH l1 Hc1). by destruct (serve script l1).
Qed.

(** X21: whoever calls, whenever and for whatever class of operation,
    a user's counter stays between 0 and 100, the largest of the hourly
    limits, and every record is filed under the user it names. *)
Theorem request_count_bounded (script : list (Z * string * string))
    (uid : string) (info : RateLimitInfo) :
  (serve script ∅).1 !! uid = Some info →
  user_id info = uid ∧ 0 <= request_count info <= 100.
Proof.
  apply (serve_counted script ∅). intros u i Hu. by rewrite lookup_empty in Hu.
Qed.

(** X22: a call made during a block leaves the table as it was, so
    insisting does not prolong the block; the first call at or after its
    end passes whatever its class, as the first request of a new window.
    The block is taken to end no earlier than the window in which it was
    set, as it does when it was set an hour ahead of a call in that
    window. *)
Theorem block_expires_into_fresh_window (now b : Z) (uid op : string)
    (info : RateLimitInfo) (user_limits : gmap string RateLimitInfo) :
  user_limits !! uid = Some info → blocked_until info = Some b →
  window_start info + 3600 * usec <= b →
  (now < b → (check_rate_limit now uid op user_limits).1 = user_limits)
  ∧ (b <= now →
     check_rate_limit now uid op user_limits
     = (<[uid := {| user_id := user_id info; request_count := 1; last_request := now;
                    window_start := now; blocked_until := Some b |}]> user_limits,
        (true, None))).
Proof.
  intros Hu Hb Hwindow. unfold check_rate_limit. fold (limit_of op). rewrite Hu.
  pose proof (limit_of_range op) as Hrange.
  unfold is_blocked. rewrite Hb. split; intros Hnow.
  - rewrite bool_decide_eq_true_2 by done. simpl. by apply insert_id.
  - rewrite bool_decide_eq_false_2 by lia.
    unfold reset_if_needed.
    rewrite (bool_decide_eq_true_2 (now - window_start info >= 3600 * usec)) by lia.
    cbn [request_count user_id last_request window_start blocked_until].
    rewrite bool_decide_eq_false_2 by lia. by rewrite Hb.
Qed.

Lemma request_count_bounded_witness :
  user_id {| user_id := "10001"; request_count := 30; last_request := 29 * usec;
             window_start := 0; blocked_until := Some (3630 * usec) |} = "10001"
  ∧ 0 <= request_count
           {| user_id := "10001"; request_count := 30; last_request := 29 * usec;
              window_start := 0; blocked_until := Some (3630 * usec) |} <= 100.
Proof.
  apply (request_count_bounded
           (map (λ i : Z, (i * usec, "10001", "tool_call")) (Z.of_nat <$> seq 0 40))
           "10001").
  vm_compute. reflexivity.
Defined.

Lemma block_expires_into_fresh_window_witness :
  (check_rate_limit (3650 * usec) "10001" "ai_call"
     (check_rate_limit (50 * usec) "10001" "ai_call"
        {[ "10001" := {| user_id := "10001"; request_count := 50; last_request := 0;
                         window_start := 0; blocked_until := None |} ]}).1).2
  = (true, None).
Proof.
  refine (f_equal snd (proj2 (block_expires_into_fresh_window (3650 * usec)
            (3650 * usec) "10001" "ai_call"
            {| user_id := "10001"; request_count := 50; last_request := 0;
               window_start := 0; blocked_until := Some (3650 * usec) |} _ _ _ _) _)).
  - vm_compute. reflexivity.
  - reflexivity.
  - vm_compute. discriminate.
  - lia.
Defined.

End LimiterFacts.

(* ===================================================================== *)
(** ** Review runs: what is hidden and how a run ends *)
(* ===================================================================== *)

Section ReviewOutcomeFacts.

Import Review ReviewOutcome.









End ReviewOutcomeFacts.

(* ===================================================================== *)
(** ** The in-memory limiter of utils.py *)
(* ===================================================================== *)

Section ThrottleFacts.

Import Throttle.

Lemma requests_counting (times : list Z) (key : string) :
  ∀ (self : RateLimiter) (c t0 : Z) (k : nat),
  records self !! key = Some {| count := c; window_start := t0 |} →
  Forall (λ t, t - t0 <= window self * usec) times →
  (k < length times)%nat →
  (requests times key self).2 !! k
  = Some (bool_decide (c + Z.of_nat k + 1 <= limit self)).
Proof.
  induction times as [|t times IH]; intros self c t0 k Hrec Hwin Hk; simpl in Hk; [lia |].
  apply Forall_cons in Hwin as [Ht Hwin].
  simpl. unfold is_allowed, is_rate_limited. rewrite Hrec. simpl.
  rewrite bool_decide_eq_false_2 by lia.
  set (self1 := with_records self _).
  assert (records self1 !! key = Some {| count := c + 1; window_start := t0 |}) as Hrec1
    by apply lookup_insert_eq.
  destruct (requests times key self1) as [self2 oks] eqn:Hrest.
  destruct k as [|k]; simpl.
  - f_equal. repeat case_bool_decide; simpl; try done; lia.
  - pose proof (IH self1 (c + 1) t0 k Hrec1 Hwin ltac:(lia)) as Hk'.
    rewrite Hrest in Hk'. simpl in Hk'. rewrite Hk'.
    f_equal. repeat case_bool_decide; try done; lia.
Qed.

(** X25: the first request of a window is always allowed, whatever the
    limit; of the requests that follow within the window, the one that is
    number n of the window is allowed exactly when n does not exceed the
    limit.  A window opens with a request that finds no record or a record
    older than the window. *)
Theorem window_admits_limit_requests (t0 : Z) (times : list Z) (key : string)
    (self : RateLimiter) (k : nat) :
  (∀ d, records self !! key = Some d → t0 - window_start d > window self * usec) →
  Forall (λ t, t - t0 <= window self * usec) times →
  (k < length (t0 :: times))%nat →
  (requests (t0 :: times) key self).2 !! k
  = Some (bool_decide (k = 0%nat ∨ Z.of_nat k + 1 <= limit self)).
Proof.
  intros Hopen Hwin Hk. simpl.
  assert (is_allowed t0 key self
          = (with_records self
               (<[key := {| count := 1; window_start := t0 |}]> (records self)), true))
    as ->.
  { unfold is_allowed, is_rate_limited.
    destruct (records self !! key) as [d|] eqn:Hd; [| done].
    by rewrite bool_decide_eq_true_2 by by apply Hopen. }
  set (self1 := with_records self _).
  destruct (requests times key self1) as [self2 oks] eqn:Hrest.
  destruct k as [|k]; simpl.
  - done.
  - simpl in Hk.
    pose proof (requests_counting times key self1 1 t0 k
                  ltac:(apply lookup_insert_eq) Hwin ltac:(lia)) as Hk'.
    rewrite Hrest in Hk'. simpl in Hk'. rewrite Hk'. f_equal.
    change (limit self1) with (limit self).
    repeat case_bool_decide; try done; try lia; naive_solver lia.
Qed.

(** X26: cleaning the table never changes what a later request is
    told: the request is answered the same and leaves the same record for
    its key whether or not the table was cleaned before. *)
Theorem cleanup_is_not_observable (now now' : Z) (key : string) (self : RateLimiter) :
  now <= now' →
  (is_allowed now' key (cleanup now self).1).2 = (is_allowed now' key self).2
  ∧ records (is_allowed now' key (cleanup now self).1).1 !! key
    = records (is_allowed now' key self).1 !! key.
Proof.
  intros Hnow. unfold cleanup, clean_rate_limits, is_allowed, is_rate_limited. simpl.
  destruct (filter _ (records self) !! key) as [d|] eqn:Hkept.
  - apply map_lookup_filter_Some in Hkept as [Hd _]. rewrite Hd.
    case_bool_decide; simpl; by rewrite !lookup_insert_eq.
  - apply map_lookup_filter_None in Hkept as [Hnone | Hexpired].
    + rewrite Hnone. simpl. by rewrite !lookup_insert_eq.
    + destruct (records self !! key) as [d|] eqn:Hd; simpl;
        [| by rewrite !lookup_insert_eq].
      specialize (Hexpired d eq_refl). simpl in Hexpired.
      assert (now - window_start d > window self * usec) as Hold.
      { destruct (decide (now - window_start d > window self * usec)); [done |].
        by exfalso. }
      rewrite bool_decide_eq_true_2 by lia. simpl. by rewrite !lookup_insert_eq.
Qed.

Lemma window_admits_limit_requests_witness :
  (requests [0; 1 * usec; 2 * usec; 3 * usec] "10.0.0.1"
     {| limit := 2; window := 3600; records := ∅ |}).2
  = [true; true; false; false]
  ∧ (requests [0; 1 * usec; 2 * usec; 3 * usec] "10.0.0.1"
       {| limit := 2; window := 3600; records := ∅ |}).2 !! 2%nat
    = Some (bool_decide (2%nat = 0%nat ∨ Z.of_nat 2 + 1 <= 2)).
Proof.
  split; [vm_compute; reflexivity |].
  apply (window_admits_limit_requests 0 [1 * usec; 2 * usec; 3 * usec] "10.0.0.1"
           {| limit := 2; window := 3600; records := ∅ |} 2).
  - intros d Hd. simpl in Hd. by rewrite lookup_empty in Hd.
  - repeat constructor; vm_compute; discriminate.
  - simpl. lia.
Defined.

Lemma cleanup_is_not_observable_witness :
  (is_allowed (4000 * usec) "10.0.0.1"
     (cleanup (3700 * usec)
        {| limit := 1; window := 3600;
           records := {[ "10.0.0.1" := {| count := 5; window_start := 0 |} ]} |}).1).2
  = true
  ∧ (is_allowed (4000 * usec) "10.0.0.1"
       (cleanup (3700 * usec)
          {| limit := 1; window := 3600;
             records := {[ "10.0.0.1" := {| count := 5; window_start := 0 |} ]} |}).1).2
    = (is_allowed (4000 * usec) "10.0.0.1"
         {| limit := 1; window := 3600;
            records := {[ "10.0.0.1" := {| count := 5; window_start := 0 |} ]} |}).2.
Proof.
  split; [vm_compute; reflexivity |].
  refine (proj1 (cleanup_is_not_observable (3700 * usec) (4000 * usec) "10.0.0.1" _ _)).
  vm_compute. discriminate.
Defined.

End ThrottleFacts.

(* ===================================================================== *)
(** ** Text helpers *)
(* ===================================================================== *)

Section TextFacts.

Import Text.

(** X27: an empty text and a text no longer than [max_length] come
    back unchanged; a longer one comes back as a prefix of itself followed
    by the suffix, and the result fits in [max_length] exactly when the
    suffix does: with a suffix longer than [max_length] every truncated
    text comes out longer than asked. *)
Theorem truncate_text_fits_iff_suffix_fits (text suffix : str) (max_length : Z) :
  (text = [] ∨ Z.of_nat (length text) <= max_length →
   truncate_text text max_length suffix = text)
  ∧ (text ≠ [] → max_length < Z.of_nat (length text) →
     (∃ n, truncate_text text max_length suffix = take n text ++ suffix)
     ∧ (Z.of_nat (length (truncate_text text max_length suffix)) <= max_length
        ↔ Z.of_nat (length suffix) <= max_length)).
Proof.
  unfold truncate_text. split.
  - intros [-> | Hshort]; [done |].
    rewrite bool_decide_eq_true_2 by done. by rewrite orb_true_r.
  - intros Hne Hlong. rewrite bool_decide_eq_false_2 by lia. rewrite orb_false_r.
    destruct text as [|c text]; [done |].
    unfold py_slice_to. split.
    + case_bool_decide; by eexists.
    + rewrite length_app. case_bool_decide; rewrite length_take; simpl length in *; lia.
Qed.

Ltac absent_by_computation :=
  match goal with
  | |- ?x ∉ ?l => apply (bool_decide_eq_false_1 (x ∈ l)); vm_compute; reflexivity
  end.

Lemma lstrip_suffix (chars : list N) (s : str) : ∃ k, s = k ++ lstrip chars s.
Proof.
  induction s as [|c s [k IH]]; [by exists [] |].
  simpl. case_bool_decide.
  - exists (c :: k). simpl. by f_equal.
  - by exists [].
Qed.

Lemma lstrip_head (chars : list N) (s : str) (c : N) :
  head (lstrip chars s) = Some c → c ∉ chars.
Proof.
  induction s as [|c' s IH]; [done |].
  simpl. case_bool_decide as Hc; [done |]. simpl. by intros [= <-].
Qed.

Lemma rstrip_prefix (chars : list N) (s : str) : ∃ k, s = rstrip chars s ++ k.
Proof.
  unfold rstrip. destruct (lstrip_suffix chars (reverse s)) as [k Hk].
  exists (reverse k).
  rewrite <- reverse_app, <- Hk. by rewrite reverse_involutive.
Qed.

Lemma strip_elem_of (chars : list N) (s : str) (c : N) : c ∈ strip chars s → c ∈ s.
Proof.
  unfold strip. intros Hc.
  destruct (rstrip_prefix chars (lstrip chars s)) as [k Hk].
  destruct (lstrip_suffix chars s) as [k' Hk'].
  rewrite Hk', Hk. apply elem_of_app. right. apply elem_of_app. by left.
Qed.

Lemma strip_head (chars : list N) (s : str) (c : N) :
  head (strip chars s) = Some c → c ∉ chars.
Proof.
  unfold strip. intros Hc.
  destruct (rstrip_prefix chars (lstrip chars s)) as [k Hk].
  apply (lstrip_head chars s). rewrite Hk.
  by destruct (rstrip chars (lstrip chars s)).
Qed.

(** X28: whatever the name given, the cleaned name is not empty, is at
    most 200 characters long, contains none of the characters that are
    unsafe in a file name (angle brackets, colon, double quote, slash,
    backslash, bar, question mark, asterisk) and does not begin with a full
    stop or a space. *)
Theorem sanitize_filename_is_safe (filename : str) :
  sanitize_filename filename ≠ []
  ∧ (length (sanitize_filename filename) ≤ 200)%nat
  ∧ (∀ c, c ∈ sanitize_filename filename → c ∉ unsafe_chars)
  ∧ (∀ c, head (sanitize_filename filename) = Some c → c ∉ stripped_chars).
Proof.
  unfold sanitize_filename.
  set (replaced := map _ filename).
  assert (∀ c, c ∈ replaced → c ∉ unsafe_chars) as Hreplaced.
  { intros c (c0 & -> & _)%list_elem_of_fmap. case_bool_decide; [| done].
    absent_by_computation. }
  set (named := match strip stripped_chars replaced with
                | [] => unnamed
                | _ => strip stripped_chars replaced
                end).
  assert (named ≠ []
          ∧ (∀ c, c ∈ named → c ∉ unsafe_chars)
          ∧ (∀ c, head named = Some c → c ∉ stripped_chars)) as (Hne & Hsafe & Hhead).
  { unfold named. destruct (strip stripped_chars replaced) as [|c0 rest] eqn:Hstrip.
    - split; [done |]. split.
      + intros c Hc. unfold unnamed in Hc.
        repeat (apply elem_of_cons in Hc as [-> | Hc]; [absent_by_computation |]).
        by apply elem_of_nil in Hc.
      + intros c [= <-]. absent_by_computation.
    - split; [done |]. split.
      + intros c Hc. apply Hreplaced, (strip_elem_of stripped_chars). by rewrite Hstrip.
      + intros c Hc. apply (strip_head stripped_chars replaced). by rewrite Hstrip. }
  case_bool_decide as Hlen.
  - destruct named as [|c0 rest]; [done |]. simpl. repeat split.
    + done.
    + rewrite length_take. lia.
    + intros c Hc. apply Hsafe.
      apply elem_of_cons in Hc as [-> | Hc]; [apply list_elem_of_here |].
      apply list_elem_of_further. by apply (subseteq_take 199 rest).
    + done.
  - repeat split; try done. lia.
Qed.

Lemma sanitize_filename_is_safe_witness :
  sanitize_filename [97; 47; 98]%N = [97; 95; 98]%N ∧ underscore ∉ unsafe_chars.
Proof.
  split; [reflexivity |].
  apply (proj1 (proj2 (proj2 (sanitize_filename_is_safe [97; 47; 98]%N))) underscore).
  apply list_elem_of_In. simpl. tauto.
Defined.

Lemma truncate_text_fits_iff_suffix_fits_witness :
  truncate_text [97; 98; 99; 100; 101; 102]%N 2 [46; 46; 46]%N
  = [97; 98; 99; 100; 101; 46; 46; 46]%N
  ∧ ¬ Z.of_nat (length (truncate_text [97; 98; 99; 100; 101; 102]%N 2 [46; 46; 46]%N))
      <= 2.
Proof.
  split; [reflexivity |].
  intros Hfits.
  apply (proj2 (proj2 (truncate_text_fits_iff_suffix_fits
                         [97; 98; 99; 100; 101; 102]%N [46; 46; 46]%N 2)
                  ltac:(discriminate) ltac:(simpl; lia))) in Hfits.
  simpl in Hfits. lia.
Defined.

End TextFacts.

(* ===================================================================== *)
(** ** The conversation context *)
(* ===================================================================== *)

Section ContextFacts.

Import Context.

(** X29: with room for more than five messages, a context that holds at
    most [max_messages] still does after a message is added; the message
    added is the last one; below the bound nothing is dropped; and the
    system messages among the first five are all kept. *)
Theorem add_message_keeps_bound (now : Z) (m : Message) (self : ConversationContext) :
  5 < max_messages self →
  Z.of_nat (length (messages self)) <= max_messages self →
  Z.of_nat (length (messages (add_message now m self))) <= max_messages self
  ∧ last (messages (add_message now m self)) = Some m
  ∧ (Z.of_nat (length (messages self)) < max_messages self →
     messages (add_message now m self) = messages self ++ [m])
  ∧ (∀ msg, msg ∈ take 5 (messages self) → role msg = "system" →
            msg ∈ messages (add_message now m self)).
Proof.
  intros Hmax Hlen. unfold add_message.
  assert (length (messages self ++ [m]) = S (length (messages self))) as Hsnoc
    by (rewrite length_app; simpl; lia).
  case_bool_decide as Hover; simpl.
  - set (system_messages := filter _ (take 5 (messages self ++ [m]))).
    assert (length system_messages ≤ 5)%nat as Hsys.
    { unfold system_messages. etrans; [apply length_filter |]. rewrite length_take. lia. }
    unfold py_slice_from. rewrite bool_decide_eq_true_2 by lia.
    replace (Z.to_nat (Z.of_nat (length (messages self ++ [m]))
                       + - (max_messages self - Z.of_nat (length system_messages))))
      with (S (length system_messages)) by lia.
    rewrite drop_app_le by lia.
    repeat split.
    + rewrite !length_app, length_drop. simpl. lia.
    + by rewrite !app_assoc, last_snoc.
    + lia.
    + intros msg Hmsg Hrole. apply elem_of_app. left.
      unfold system_messages. apply list_elem_of_filter. split; [done |].
      destruct (decide (5 ≤ length (messages self))%nat).
      * by rewrite take_app_le.
      * rewrite take_ge in Hmsg by lia.
        rewrite take_ge by (rewrite Hsnoc; lia).
        apply elem_of_app. by left.
  - repeat split.
    + lia.
    + apply last_snoc.
    + intros msg Hmsg _. apply elem_of_app. left. by apply (subseteq_take 5).
Qed.

Lemma add_message_keeps_bound_witness :
  messages
    (add_message 1 {| role := "user"; content := "c" |}
       {| messages := replicate 6 {| role := "system"; content := "s" |};
          last_activity := 0; max_messages := 6 |})
  = replicate 5 {| role := "system"; content := "s" |}
    ++ [{| role := "user"; content := "c" |}]
  ∧ last (messages
            (add_message 1 {| role := "user"; content := "c" |}
               {| messages := replicate 6 {| role := "system"; content := "s" |};
                  last_activity := 0; max_messages := 6 |}))
    = Some {| role := "user"; content := "c" |}.
Proof.
  split; [vm_compute; reflexivity |].
  refine (proj1 (proj2 (add_message_keeps_bound 1 _ _ _ _))).
  - simpl. lia.
  - simpl. lia.
Defined.

End ContextFacts.

(* ===================================================================== *)
(** ** The per-group send limit *)
(* ===================================================================== *)

Section QQSenderFacts.

Import QQSender.

Lemma sends_snoc (times : list Z) (t : Z) (g : string) :
  ∀ r,
  sends (times ++ [t]) g r
  = let '(r1, allowed) := sends times g r in
    let '(r2, ok) := _check_rate_limit t g r1 in
    (r2, allowed ++ if ok then [t] else []).
Proof.
  induction times as [|t0 times IH]; intros r; simpl.
  - by destruct (_check_rate_limit t g r) as [r2 []].
  - destruct (_check_rate_limit t0 g r) as [r1 ok0].
    rewrite IH. destruct (sends times g r1) as [r2 allowed].
    destruct (_check_rate_limit t g r2) as [r3 ok]. by destruct ok0.
Qed.

Lemma nondecreasing_snoc (l : list Z) (t : Z) :
  nondecreasing (l ++ [t]) →
  nondecreasing l ∧ ∀ t', last l = Some t' → (t' ≤ t)%Z.
Proof.
  intros Hnd. split.
  - intros i j x y Hij Hi Hj.
    apply (Hnd i j); [done | |]; by apply lookup_app_l_Some.
  - intros t' Hlast. rewrite last_lookup in Hlast.
    apply (Hnd (pred (length l)) (length l)); [lia | by apply lookup_app_l_Some |].
    by apply list_lookup_middle.
Qed.

Lemma sends_window (times : list Z) (g : string) :
  nondecreasing times →
  ∀ t, last times = Some t →
  (sends times g ∅).1 !! g
  = Some (filter (λ ts, t - ts < 60 * usec) (sends times g ∅).2)
  ∧ (length (filter (λ ts, (t - ts < 60 * usec)%Z) (sends times g ∅).2) ≤ 15)%nat.
Proof.
  induction times as [|t times IH] using rev_ind; [done |].
  intros Hnd t' Hlast. rewrite last_snoc in Hlast. injection Hlast as <-.
  apply nondecreasing_snoc in Hnd as [Hnd Hle].
  rewrite sends_snoc.
  destruct (sends times g ∅) as [r1 allowed] eqn:Hsends.
  assert (filter (λ ts, t - ts < 60 * usec) (default [] (r1 !! g))
          = filter (λ ts, t - ts < 60 * usec) allowed
          ∧ (length (filter (λ ts, (t - ts < 60 * usec)%Z) allowed) ≤ 15)%nat)
    as [Hkept Hbound].
  { destruct (last times) as [t0|] eqn:Hlast0.
    - destruct (IH Hnd t0 eq_refl) as [Hstored Hlen]. simpl in Hstored, Hlen.
      specialize (Hle t0 eq_refl).
      rewrite Hstored. simpl.
      rewrite list_filter_filter_l by (intros; lia). split; [done |].
      etrans; [| exact Hlen].
      rewrite <- (list_filter_filter_l (λ ts, t - ts < 60 * usec)
                    (λ ts, t0 - ts < 60 * usec)) by (intros; lia).
      apply length_filter.
    - apply last_None in Hlast0 as ->. simpl in Hsends. injection Hsends as <- <-.
      rewrite lookup_empty. simpl. split; [done | lia]. }
  unfold _check_rate_limit. rewrite Hkept.
  case_bool_decide as Hfull; simpl.
  - rewrite lookup_insert_eq, app_nil_r. done.
  - rewrite lookup_insert_eq, filter_app.
    rewrite (filter_cons_True _ t []) by (pose proof usec_pos; lia).
    split; [done |]. rewrite length_app. simpl. lia.
Qed.

(** X30: with a clock that does not run backwards, at every request to
    send to a group the sends allowed in the sixty seconds up to it,
    itself included when it is allowed, number at most fifteen; and the
    list kept for the group is exactly those sends. *)
Theorem at_most_15_sends_per_minute (times : list Z) (t : Z) (g : string) :
  nondecreasing (times ++ [t]) →
  (length (filter (λ ts, (t - ts < 60 * usec)%Z) (sends (times ++ [t]) g ∅).2) ≤ 15)%nat
  ∧ (sends (times ++ [t]) g ∅).1 !! g
    = Some (filter (λ ts, t - ts < 60 * usec) (sends (times ++ [t]) g ∅).2).
Proof.
  intros Hnd.
  destruct (sends_window (times ++ [t]) g Hnd t (last_snoc _ _)) as [Hstored Hlen].
  done.
Qed.

Lemma at_most_15_sends_per_minute_witness :
  (sends (replicate 20 0 ++ [59 * usec]) "42" ∅).2 = replicate 15 0
  ∧ (length (filter (λ ts, (59 * usec - ts < 60 * usec)%Z)
               (sends (replicate 20 0 ++ [59 * usec])%Z "42" ∅).2) ≤ 15)%nat.
Proof.
  split; [vm_compute; reflexivity |].
  refine (proj1 (at_most_15_sends_per_minute (replicate 20 0) (59 * usec) "42" _)).
  intros i j x y Hij Hi Hj.
  assert (x = 0 ∨ x = 59 * usec) as Hx.
  { apply list_elem_of_lookup_2, elem_of_app in Hi as [Hi | Hi].
    - left. by apply elem_of_replicate in Hi as [-> _].
    - right. by apply list_elem_of_singleton in Hi. }
  destruct (decide (j = 20%nat)) as [-> | Hne].
  - vm_compute in Hj. injection Hj as <-. destruct Hx as [-> | ->]; vm_compute; discriminate.
  - assert (j < 20)%nat as Hlt.
    { apply lookup_lt_Some in Hj. rewrite length_app, length_replicate in Hj.
      simpl in Hj. lia. }
    rewrite lookup_app_l in Hi, Hj by (rewrite length_replicate; lia).
    apply lookup_replicate in Hi as [-> _]. by apply lookup_replicate in Hj as [-> _].
Defined.

End QQSenderFacts.
